(** * Scene transitions, doorways and VIBEVERSE portals

    A shallow embedding of the scene-transition layer of the game:
    [Doorway] / [DoorwayManager] (src/doorways.js), the scene integration
    loop (src/sceneIntegration.js) and [VibePortalEntity]
    (vibePortalEntity.js), with the properties the specification states
    about them.

    Conventions of the embedding.
    - A JavaScript number is an IEEE 754 binary64 value ([float]), with the
      arithmetic, square root and comparisons of the language; a numeric
      field that may be [undefined] is an [option float].
    - Wall-clock time (the argument of [setTimeout], [Date.now()]) is an
      integer number of milliseconds ([Z]).
    - A pending [setTimeout] is the deadline at which its callback runs;
      the event loop runs the callbacks that are due between two frames.
    - Calls into collaborators that are not part of these modules
      ([SceneManager.loadScene], [SceneManager.transitionTo], page
      navigation, DOM messages) are recorded in a log, in call order. *)

From Stdlib Require Import ZArith QArith Floats Lia Bool List Ascii String.
From stdpp Require Import gmap strings.
Import ListNotations.

Set Warnings "-inexact-float".

Local Open Scope string_scope.
Local Open Scope Z_scope.
Local Open Scope float_scope.

(** ** JavaScript numbers *)

Module Js.

(** Truthiness of a number: [0], [-0] and [NaN] are falsy. *)
Definition truthy (x : float) : bool :=
  negb ((x =? 0) || is_nan x).

(** [v || d] on a numeric field that may be missing. *)
Definition or_default (v : option float) (d : float) : float :=
  match v with
  | Some x => if truthy x then x else d
  | None => d
  end.

(** A field read as a number: [undefined] in arithmetic is [NaN]. *)
Definition number (v : option float) : float :=
  match v with
  | Some x => x
  | None => nan
  end.

Definition isNegativeZero (x : float) : bool :=
  match classify x with
  | NZero => true
  | _ => false
  end.

(** [Math.max(a, b)]: [NaN] if either is, and [+0] above [-0]. *)
Definition max (a b : float) : float :=
  if is_nan a || is_nan b then nan
  else if a <? b then b
  else if b <? a then a
  else if isNegativeZero a then b else a.

(** The number with the integer value [z], for [|z| < 2^63]. *)
Definition ofZ (z : Z) : float :=
  if (z <? 0)%Z then - of_uint63 (Uint63.of_Z (- z))
  else of_uint63 (Uint63.of_Z z).

(** [Math.floor(x)]: a number of magnitude [m * 2^e] with [e >= 0] is an
    integer already, as are the zeros; infinities and [NaN] pass through. *)
Definition floor (x : float) : float :=
  match Prim2SF x with
  | S754_finite s m e =>
      if (0 <=? e)%Z then x
      else ofZ ((if s then Z.neg m else Z.pos m) / 2 ^ (- e))
  | _ => x
  end.

(** The exact value of a finite number, as a rational. *)
Definition exact (x : float) : option Q :=
  match Prim2SF x with
  | S754_zero _ => Some 0%Q
  | S754_finite s m e =>
      Some (inject_Z (if s then Z.neg m else Z.pos m) * Qpower 2 e)%Q
  | _ => None
  end.

End Js.

(** ** src/doorways.js *)

Module Doorways.

Inductive WallSide := north | west.

#[global] Instance WallSide_eq_dec : EqDecision WallSide.
Proof. solve_decision. Defined.

(** The fields of [Doorway] that the update path reads or writes.
    [closeTimeout] is the handle of the pending close timer, kept as the
    time at which its callback is due. *)
Record Doorway := mkDoorway {
  direction : string;
  targetScene : option string;
  x : float;
  y : float;
  isOpen : bool;
  isWallDoorway : bool;
  wallSide : option WallSide;
  gridX : float;
  gridY : float;
  closeTimeout : option Z
}.

(** [new Doorway(direction, targetScene, x, y)] *)
Definition newDoorway (direction : string) (targetScene : option string)
    (x y : float) : Doorway :=
  {| direction := direction; targetScene := targetScene; x := x; y := y;
     isOpen := false; isWallDoorway := false; wallSide := None;
     gridX := 0; gridY := 0; closeTimeout := None |}.

Definition set_isOpen (b : bool) (d : Doorway) : Doorway :=
  {| direction := direction d; targetScene := targetScene d; x := x d; y := y d;
     isOpen := b; isWallDoorway := isWallDoorway d; wallSide := wallSide d;
     gridX := gridX d; gridY := gridY d; closeTimeout := closeTimeout d |}.

Definition set_closeTimeout (t : option Z) (d : Doorway) : Doorway :=
  {| direction := direction d; targetScene := targetScene d; x := x d; y := y d;
     isOpen := isOpen d; isWallDoorway := isWallDoorway d; wallSide := wallSide d;
     gridX := gridX d; gridY := gridY d; closeTimeout := t |}.

Definition set_wall (w : bool) (d : Doorway) : Doorway :=
  {| direction := direction d; targetScene := targetScene d; x := x d; y := y d;
     isOpen := isOpen d; isWallDoorway := w; wallSide := wallSide d;
     gridX := gridX d; gridY := gridY d; closeTimeout := closeTimeout d |}.

Definition set_wallSide (s : option WallSide) (d : Doorway) : Doorway :=
  {| direction := direction d; targetScene := targetScene d; x := x d; y := y d;
     isOpen := isOpen d; isWallDoorway := isWallDoorway d; wallSide := s;
     gridX := gridX d; gridY := gridY d; closeTimeout := closeTimeout d |}.

Definition set_grid (gx gy : float) (d : Doorway) : Doorway :=
  {| direction := direction d; targetScene := targetScene d; x := x d; y := y d;
     isOpen := isOpen d; isWallDoorway := isWallDoorway d; wallSide := wallSide d;
     gridX := gx; gridY := gy; closeTimeout := closeTimeout d |}.

(** The delay of the close timer, in milliseconds. *)
Definition closeDelay : Z := 800.

(** [Doorway.update(deltaTime, isPlayerNear)], called at time [now].
    The pulse animation counter is presentation state and is left out. *)
Definition update (now : Z) (deltaTime : float) (isPlayerNear : bool)
    (d : Doorway) : Doorway :=
  if isWallDoorway d then
    if isPlayerNear && negb (isOpen d) then
      let d := set_isOpen true d in
      match closeTimeout d with
      | Some _ => set_closeTimeout None d      (* clearTimeout *)
      | None => d
      end
    else if negb isPlayerNear && isOpen d then
      match closeTimeout d with
      | None => set_closeTimeout (Some (now + closeDelay)%Z) d   (* setTimeout *)
      | Some _ => d
      end
    else d
  else d.

(** The callback given to [setTimeout]. *)
Definition closeCallback (d : Doorway) : Doorway :=
  set_closeTimeout None (set_isOpen false d).

(** The event loop at time [now]: a pending close that is due runs. *)
Definition runTimers (now : Z) (d : Doorway) : Doorway :=
  match closeTimeout d with
  | Some due => if (due <=? now)%Z then closeCallback d else d
  | None => d
  end.

(** One proximity sample: the time of the frame, [deltaTime] and the
    proximity flag passed to [update]. *)
Record Sample := mkSample {
  at_ms : Z;
  dt : float;
  near : bool
}.

(** A frame: the timers due by the time of the frame run, then [update]. *)
Definition frame (s : Sample) (d : Doorway) : Doorway :=
  update (at_ms s) (dt s) (near s) (runTimers (at_ms s) d).

Definition frames (ss : list Sample) (d : Doorway) : Doorway :=
  fold_left (fun d s => frame s d) ss d.

(** The [distance] that [isPlayerColliding] computes:
    [Math.sqrt(dx*dx + dy*dy)] with [dx], [dy] the absolute differences
    of the grid coordinates, all in double precision. *)
Definition distance (d : Doorway) (playerX playerY : float) : float :=
  let dx := abs (gridX d - playerX) in
  let dy := abs (gridY d - playerY) in
  sqrt (dx * dx + dy * dy).

(** [Doorway.isPlayerColliding(playerX, playerY, cellWidth, cellHeight)];
    the cell sizes are not used by the body. *)
Definition isPlayerColliding (d : Doorway) (playerX playerY : float) : bool :=
  let distance := distance d playerX playerY in
  let proximityThreshold := 3 in
  if isWallDoorway d && bool_decide (wallSide d = Some north) && (5 <? playerY)
  then false
  else if isWallDoorway d && bool_decide (wallSide d = Some west) && (5 <? playerX)
  then false
  else distance <? proximityThreshold.

(** *** The scene registry (sceneData.js) as [initDoorways] reads it *)

Record Position := mkPosition {
  pos_x : option float;
  pos_y : option float
}.

Record Exit := mkExit {
  exit_direction : string;
  exit_to : option string;
  exit_position : option Position;
  exit_gridX : option float;
  exit_gridY : option float;
  exit_comingSoon : bool
}.

Record Scene := mkScene {
  scene_width : float;
  scene_height : float;
  scene_exits : option (list Exit)
}.

Definition isCardinal (direction : string) : bool :=
  bool_decide (direction = "north") || bool_decide (direction = "south")
  || bool_decide (direction = "east") || bool_decide (direction = "west").

(** The body of [scene.exits.forEach(exit => ...)] in [initDoorways]:
    the doorway built for one exit of the scene [sceneName].
    Registration in the spatial grid does not change the doorway and is
    left out. *)
Definition exitDoorway (sceneName : string) (scene : Scene) (exit : Exit)
    : Doorway :=
  let direction := exit_direction exit in
  let position := default (mkPosition None None) (exit_position exit) in
  let gridX := match exit_gridX exit with
               | Some g => g
               | None => Js.number (pos_x position) / scene_width scene * 16
               end in
  let gridY := match exit_gridY exit with
               | Some g => g
               | None => Js.number (pos_y position) / scene_height scene * 16
               end in
  let doorway := newDoorway direction (exit_to exit)
                   (Js.or_default (pos_x position) 0)
                   (Js.or_default (pos_y position) 0) in
  let doorway := set_grid gridX gridY doorway in
  let doorway :=
    if isCardinal direction then
      let doorway := set_wall true doorway in
      if bool_decide (direction = "north") || bool_decide (direction = "south")
      then set_wallSide (Some north) doorway
      else if bool_decide (direction = "east") || bool_decide (direction = "west")
      then set_wallSide (Some west) doorway
      else doorway
    else doorway in
  let doorway :=
    if bool_decide (sceneName = "startRoom") && bool_decide (direction = "east")
    then set_grid 0 5.3 (set_wallSide (Some west) doorway)
    else doorway in
  let doorway :=
    if bool_decide (sceneName = "neonPhylactery") && bool_decide (direction = "west")
    then set_grid 14.0 6.3 (set_wallSide (Some west) doorway)
    else doorway in
  doorway.

Definition sceneDoorways (sceneName : string) (scene : Scene) : list Doorway :=
  match scene_exits scene with
  | Some exits => map (exitDoorway sceneName scene) exits
  | None => []
  end.

(** [DoorwayManager.initDoorways()]: one list of doorways per scene of
    the registry. *)
Definition initDoorways (scenes : gmap string Scene)
    : gmap string (list Doorway) :=
  map_imap (fun sceneName scene => Some (sceneDoorways sceneName scene)) scenes.

(** *** DoorwayManager *)

Record DoorwayManager := mkManager {
  doorwaysByScene : gmap string (list Doorway);
  activeDoorways : list Doorway;
  transitionCooldown : float
}.

(** [new DoorwayManager()] *)
Definition newManager (scenes : gmap string Scene) : DoorwayManager :=
  {| doorwaysByScene := initDoorways scenes;
     activeDoorways := [];
     transitionCooldown := 0 |}.

(** The state threaded through [activeDoorways.forEach]: the cooldown and
    the arguments of the [sceneManager.loadScene] calls made so far. *)
Record LoopState := mkLoop {
  loop_cooldown : float;
  loop_calls : list (option string)
}.

(** The body of [activeDoorways.forEach(doorway => ...)] in
    [DoorwayManager.update]. *)
Definition visit (now : Z) (deltaTime playerX playerY : float)
    (st : LoopState) (doorway : Doorway) : LoopState * Doorway :=
  let isPlayerNear := isPlayerColliding doorway playerX playerY in
  let doorway := update now deltaTime isPlayerNear doorway in
  if (loop_cooldown st <=? 0) && isPlayerNear && negb (isWallDoorway doorway)
  then ({| loop_cooldown := 0.5;
           loop_calls := (loop_calls st ++ [targetScene doorway])%list |}, doorway)
  else (st, doorway).

Fixpoint visitAll (now : Z) (deltaTime playerX playerY : float)
    (st : LoopState) (doorways : list Doorway) : LoopState * list Doorway :=
  match doorways with
  | [] => (st, [])
  | doorway :: rest =>
      let '(st, doorway) := visit now deltaTime playerX playerY st doorway in
      let '(st, rest) := visitAll now deltaTime playerX playerY st rest in
      (st, doorway :: rest)
  end.

(** The cooldown after the first statement of [DoorwayManager.update]:
    [if (this.transitionCooldown > 0) this.transitionCooldown -= deltaTime]. *)
Definition decayed (cooldown deltaTime : float) : float :=
  if 0 <? cooldown then cooldown - deltaTime else cooldown.

(** [DoorwayManager.update(deltaTime, playerX, playerY, scene)] at time
    [now]; [currentScene] is the identifier of the scene that
    [sceneManager.getCurrentScene()] returns, if any.  The result holds
    the new manager and the arguments of the [loadScene] calls, in
    order.  The doorways are objects shared by [doorwaysByScene] and
    [activeDoorways], so both see the updated doorways. *)
Definition managerUpdate (currentScene : option string) (now : Z)
    (deltaTime playerX playerY : float) (m : DoorwayManager)
    : DoorwayManager * list (option string) :=
  let cooldown := decayed (transitionCooldown m) deltaTime in
  match currentScene with
  | None =>
      ({| doorwaysByScene := doorwaysByScene m;
          activeDoorways := activeDoorways m;
          transitionCooldown := cooldown |}, [])
  | Some id =>
      let active := default [] (doorwaysByScene m !! id) in
      let '(st, active) :=
        visitAll now deltaTime playerX playerY (mkLoop cooldown []) active in
      ({| doorwaysByScene :=
            match doorwaysByScene m !! id with
            | Some _ => <[id := active]> (doorwaysByScene m)
            | None => doorwaysByScene m
            end;
          activeDoorways := active;
          transitionCooldown := loop_cooldown st |}, loop_calls st)
  end.

(** The event loop at time [now], for every doorway of the manager. *)
Definition managerTimers (now : Z) (m : DoorwayManager) : DoorwayManager :=
  {| doorwaysByScene := (map (runTimers now)) <$> doorwaysByScene m;
     activeDoorways := map (runTimers now) (activeDoorways m);
     transitionCooldown := transitionCooldown m |}.

(** One frame of the game loop as the manager sees it. *)
Record Frame := mkFrame {
  f_scene : option string;
  f_now : Z;
  f_deltaTime : float;
  f_playerX : float;
  f_playerY : float
}.

Definition managerFrame (f : Frame) (m : DoorwayManager)
    : DoorwayManager * list (option string) :=
  managerUpdate (f_scene f) (f_now f) (f_deltaTime f) (f_playerX f) (f_playerY f)
    (managerTimers (f_now f) m).

(** A run of frames: the final manager and the [loadScene] calls of each
    frame. *)
Fixpoint managerRun (fs : list Frame) (m : DoorwayManager)
    : DoorwayManager * list (list (option string)) :=
  match fs with
  | [] => (m, [])
  | f :: fs =>
      let '(m, calls) := managerFrame f m in
      let '(m, rest) := managerRun fs m in
      (m, calls :: rest)
  end.

(** *** Predicates on registries and managers *)

(** Every doorway of the manager is a wall doorway. *)
Definition allWalls (byScene : gmap string (list Doorway)) : Prop :=
  map_Forall (fun _ ds => Forall (fun d => isWallDoorway d = true) ds) byScene.

(** Every exit of the registry has a cardinal direction. *)
Definition cardinalRegistry (scenes : gmap string Scene) : Prop :=
  forall sceneName scene exits exit,
    scenes !! sceneName = Some scene -> scene_exits scene = Some exits ->
    In exit exits -> isCardinal (exit_direction exit) = true.

End Doorways.

(** ** URLSearchParams

    The part of the platform's [URLSearchParams] that [enterPortal] uses,
    after the URL standard's [application/x-www-form-urlencoded] parser and
    serializer.  A string is its sequence of UTF-8 bytes. *)

Module Url.

Definition Params := list (string * string).

Definition in_range (lo hi n : nat) : bool := (lo <=? n)%nat && (n <=? hi)%nat.

(** Bytes the serializer leaves as they are: ASCII alphanumerics and
    [*], [-], [.], [_]. *)
Definition unreserved (c : ascii) : bool :=
  let n := nat_of_ascii c in
  in_range 48 57 n || in_range 65 90 n || in_range 97 122 n
  || (n =? 42)%nat || (n =? 45)%nat || (n =? 46)%nat || (n =? 95)%nat.

Definition hexDigit (n : nat) : ascii :=
  if (n <? 10)%nat then ascii_of_nat (48 + n) else ascii_of_nat (55 + n).

Definition hexValue (c : ascii) : option nat :=
  let n := nat_of_ascii c in
  if in_range 48 57 n then Some (n - 48)%nat
  else if in_range 65 70 n then Some (n - 55)%nat
  else if in_range 97 102 n then Some (n - 87)%nat
  else None.

Definition space : ascii := ascii_of_nat 32.
Definition plus : ascii := ascii_of_nat 43.
Definition percent : ascii := ascii_of_nat 37.
Definition amp : ascii := ascii_of_nat 38.
Definition equals : ascii := ascii_of_nat 61.

(** The serializer's byte encoding. *)
Fixpoint encode (s : string) : string :=
  match s with
  | EmptyString => EmptyString
  | String c rest =>
      if Ascii.eqb c space then String plus (encode rest)
      else if unreserved c then String c (encode rest)
      else
        let n := nat_of_ascii c in
        String percent (String (hexDigit (n / 16)) (String (hexDigit (n mod 16))
          (encode rest)))
  end.

Definition encodePair (p : string * string) : string :=
  encode (fst p) ++ String equals (encode (snd p)).

(** [params.toString()] *)
Fixpoint toString (ps : Params) : string :=
  match ps with
  | [] => EmptyString
  | [p] => encodePair p
  | p :: rest => encodePair p ++ String amp (toString rest)
  end.

(** Percent-decoding; a [%] that is not followed by two hexadecimal
    digits stays. *)
Fixpoint percentDecode (s : string) : string :=
  match s with
  | EmptyString => EmptyString
  | String c rest =>
      let keep := String c (percentDecode rest) in
      if Ascii.eqb c percent then
        match rest with
        | String h (String l rest') =>
            match hexValue h, hexValue l with
            | Some a, Some b => String (ascii_of_nat (16 * a + b)) (percentDecode rest')
            | _, _ => keep
            end
        | _ => keep
        end
      else keep
  end.

Fixpoint plusToSpace (s : string) : string :=
  match s with
  | EmptyString => EmptyString
  | String c rest =>
      String (if Ascii.eqb c plus then space else c) (plusToSpace rest)
  end.

(** The pieces of [s] between occurrences of [sep]. *)
Fixpoint splitOn (sep : ascii) (s : string) : list string :=
  match s with
  | EmptyString => [EmptyString]
  | String c rest =>
      if Ascii.eqb c sep then EmptyString :: splitOn sep rest
      else
        match splitOn sep rest with
        | piece :: pieces => String c piece :: pieces
        | [] => [String c EmptyString]
        end
  end.

(** The name and the value of one sequence: split at the first [=]. *)
Fixpoint splitPair (s : string) : string * string :=
  match s with
  | EmptyString => (EmptyString, EmptyString)
  | String c rest =>
      if Ascii.eqb c equals then (EmptyString, rest)
      else let '(name, value) := splitPair rest in (String c name, value)
  end.

Definition isEmpty (s : string) : bool :=
  match s with EmptyString => true | _ => false end.

Definition decodePair (s : string) : string * string :=
  let '(name, value) := splitPair s in
  (percentDecode (plusToSpace name), percentDecode (plusToSpace value)).

Definition parseQuery (s : string) : Params :=
  map decodePair (List.filter (fun piece => negb (isEmpty piece)) (splitOn amp s)).

(** [new URLSearchParams(init)] for a string: one leading [?] is
    dropped. *)
Definition parse (init : string) : Params :=
  match init with
  | String c rest => if Ascii.eqb c (ascii_of_nat 63) then parseQuery rest
                     else parseQuery init
  | EmptyString => []
  end.

(** [params.get(name)]: the first value of that name. *)
Fixpoint get (name : string) (ps : Params) : option string :=
  match ps with
  | [] => None
  | (k, v) :: rest => if String.eqb k name then Some v else get name rest
  end.

(** [params.append(name, value)] *)
Definition append (name value : string) (ps : Params) : Params :=
  (ps ++ [(name, value)])%list.

(** [c] does not occur in [s]. *)
Fixpoint absent (c : ascii) (s : string) : Prop :=
  match s with
  | EmptyString => True
  | String c' rest => Ascii.eqb c' c = false /\ absent c rest
  end.

Definition question : ascii := ascii_of_nat 63.
Definition hash : ascii := ascii_of_nat 35.

(** The part of [s] before the first [c], and the part after it when [c]
    occurs. *)
Fixpoint cut (c : ascii) (s : string) : string * option string :=
  match s with
  | EmptyString => (EmptyString, None)
  | String c' rest =>
      if Ascii.eqb c' c then (EmptyString, Some rest)
      else let '(before, after) := cut c rest in (String c' before, after)
  end.

(** The query of a URL ([new URL(url).search] without its [?]): what
    follows the first [?] in the part of the URL before its fragment. *)
Definition urlQuery (url : string) : string :=
  match cut question (fst (cut hash url)) with
  | (_, Some query) => query
  | (_, None) => EmptyString
  end.

(** [new URL(url).searchParams] *)
Definition searchParams (url : string) : Params :=
  parseQuery (urlQuery url).

(** The delimiters of a URL's query. *)
Definition delimiter (c : ascii) : Prop :=
  c = amp \/ c = equals \/ c = question \/ c = hash.

End Url.

(** ** vibePortalEntity.js *)

Module VibePortal.

(** The constructor options that the interaction logic reads (size,
    colour and label only affect drawing). *)
Record Options := mkOptions {
  opt_type : option string;
  opt_targetUrl : option string;
  opt_interactionDistance : option float;
  opt_entryDetectionRange : option float
}.

(** [v || d] on an optional string: the empty string is falsy. *)
Definition str_or_default (v : option string) (d : string) : string :=
  match v with
  | Some s => if Url.isEmpty s then d else s
  | None => d
  end.

Record VibePortalEntity := mkPortal {
  x : float;
  y : float;
  z : float;
  portalType : string;
  isActive : bool;
  targetUrl : string;
  interactionDistance : float;
  isPlayerNearby : bool;
  entryDetectionRange : float;
  lastEntryTime : option Z
}.

(** [new VibePortalEntity(x, y, z, options)] *)
Definition construct (x y z : float) (options : Options) : VibePortalEntity :=
  {| x := x; y := y; z := z;
     portalType := str_or_default (opt_type options) "exit";
     isActive := true;
     targetUrl := str_or_default (opt_targetUrl options) "https://portal.pieter.com";
     interactionDistance := Js.or_default (opt_interactionDistance options) 3;
     isPlayerNearby := false;
     entryDetectionRange := Js.or_default (opt_entryDetectionRange options) 1.5;
     lastEntryTime := None |}.

Definition set_lastEntryTime (t : option Z) (p : VibePortalEntity)
    : VibePortalEntity :=
  {| x := x p; y := y p; z := z p; portalType := portalType p;
     isActive := isActive p; targetUrl := targetUrl p;
     interactionDistance := interactionDistance p;
     isPlayerNearby := isPlayerNearby p;
     entryDetectionRange := entryDetectionRange p;
     lastEntryTime := t |}.

Definition set_isPlayerNearby (b : bool) (p : VibePortalEntity)
    : VibePortalEntity :=
  {| x := x p; y := y p; z := z p; portalType := portalType p;
     isActive := isActive p; targetUrl := targetUrl p;
     interactionDistance := interactionDistance p;
     isPlayerNearby := b;
     entryDetectionRange := entryDetectionRange p;
     lastEntryTime := lastEntryTime p |}.

(** What the entity reads from [window]. *)
Record Window := mkWindow {
  hostname : string;          (* window.location.hostname *)
  search : string;            (* window.location.search *)
  selfUsername : option string
}.

(** What the entity does to the page. *)
Inductive Effect :=
| DispatchPortalEntry (portalType targetUrl : string)
| PortalTransitionEffect
| SetHref (url : string)                 (* window.location.href = url *)
| ShowPortalMessage (message : string).

(** The navigation that [enterPortal] leaves pending with [setTimeout]. *)
Record Pending := mkPending {
  due : Z;
  nextPage : string
}.

Definition withQuery (url paramString : string) : string :=
  (url ++ (if Url.isEmpty paramString then "" else "?" ++ paramString))%string.

(** [window.location.hostname || 'alchemistslair.local'] *)
Definition currentDomain (w : Window) : string :=
  str_or_default (Some (hostname w)) "alchemistslair.local".

(** The parameters [enterPortal] appends, in order. *)
Definition outboundParams (w : Window) (p : VibePortalEntity) : Url.Params :=
  let params := Url.append "portal" "true" [] in
  let params :=
    if String.eqb (portalType p) "exit" then
      Url.append "ref" (currentDomain w) params
    else params in
  match selfUsername w with
  | Some u => if Url.isEmpty u then params else Url.append "username" u params
  | None => params
  end.

(** The re-entry guard: [this._lastEntryTime && Date.now() - this._lastEntryTime < 2000]. *)
Definition tooSoon (now : Z) (p : VibePortalEntity) : bool :=
  match lastEntryTime p with
  | Some t => negb (t =? 0)%Z && (now - t <? 2000)%Z
  | None => false
  end.

(** [enterPortal()] at time [now]: the entity afterwards, the effects
    up to the [setTimeout] call, and the navigation left pending. *)
Definition enterPortal (now : Z) (w : Window) (p : VibePortalEntity)
    : VibePortalEntity * list Effect * option Pending :=
  if tooSoon now p then (p, [], None)
  else
    let p := set_lastEntryTime (Some now) p in
    let paramString := Url.toString (outboundParams w p) in
    let nextPage := withQuery (targetUrl p) paramString in
    (p, [DispatchPortalEntry (portalType p) nextPage; PortalTransitionEffect],
     Some {| due := (now + 1000)%Z; nextPage := nextPage |}).

(** The callback given to [setTimeout] by [enterPortal]; [w] is the
    window when the callback runs. *)
Definition navigate (w : Window) (p : VibePortalEntity) (nextPage : string)
    : list Effect :=
  if String.eqb (portalType p) "exit" then [SetHref nextPage]
  else if String.eqb (portalType p) "start" then
    let urlParams := Url.parse (search w) in
    match Url.get "ref" urlParams with
    | Some refUrl =>
        if Url.isEmpty refUrl
        then [ShowPortalMessage "No destination found for this portal"]
        else
          let url :=
            if negb (String.prefix "http://" refUrl)
               && negb (String.prefix "https://" refUrl)
            then ("https://" ++ refUrl)%string else refUrl in
          let currentParams := Url.parse (search w) in
          let newParams :=
            List.filter (fun kv => negb (String.eqb (fst kv) "ref")) currentParams in
          let paramString := Url.toString newParams in
          [SetHref (withQuery url paramString)]
    | None => [ShowPortalMessage "No destination found for this portal"]
    end
  else [].

(** A portal entry from start to end: [enterPortal] at [now] with the
    window [w], then, unless the entry was suppressed, the pending
    navigation with the window [w'] of that moment. *)
Definition entry (now : Z) (w w' : Window) (p : VibePortalEntity)
    : VibePortalEntity * list Effect :=
  match enterPortal now w p with
  | (p, effects, Some pending) => (p, (effects ++ navigate w' p (nextPage pending))%list)
  | (p, effects, None) => (p, effects)
  end.

(** [update(deltaTime, player)] at time [now]; [player] is the position
    of the player entity, if there is one.  Animation state is left out. *)
Definition update (now : Z) (w : Window) (player : option (float * float))
    (p : VibePortalEntity) : VibePortalEntity * list Effect * option Pending :=
  match player with
  | Some (px, py) =>
      let dx := px - x p in
      let dy := py - y p in
      let distance := sqrt (dx * dx + dy * dy) in
      let p := set_isPlayerNearby (distance <=? interactionDistance p) p in
      if isActive p && (distance <=? entryDetectionRange p)
      then enterPortal now w p
      else (p, [], None)
  | None => (set_isPlayerNearby false p, [], None)
  end.

End VibePortal.

(** ** src/sceneIntegration.js *)

Module SceneIntegration.

Record ConsumedKeys := mkConsumed {
  ShiftE : bool;
  ShiftD : bool;
  ShiftS : bool;
  ShiftF : bool
}.

Definition noneConsumed : ConsumedKeys := mkConsumed false false false false.

(** A portal as the portal system hands it to [updateScene]. *)
Record Portal := mkPortal {
  portal_id : string;
  portal_direction : string;
  portal_targetScene : string;
  portal_gridX : float;
  portal_gridY : float
}.

Record Player := mkPlayer {
  player_x : option float;
  player_y : option float;
  player_gridX : option float;
  player_gridY : option float;
  player_z : float
}.

(** [Math.max(dx, dy) <= threshold] with [dx], [dy] the absolute
    coordinate differences (the test of the custom-threshold loop). *)
Definition withinThreshold (portal : Portal) (playerGridX playerGridY threshold : float)
    : bool :=
  let dx := abs (portal_gridX portal - playerGridX) in
  let dy := abs (portal_gridY portal - playerGridY) in
  Js.max dx dy <=? threshold.

(** [object[key] = value] on an object literal that holds numbers.  The
    key [__proto__] names the prototype of the object, and assigning a
    number to it changes nothing.  (Reading a key that the object does
    not hold gives [undefined] or an inherited object; neither passes a
    [<=] test, so both read as absent here.) *)
Definition assign (key : string) (value : float) (object : gmap string float)
    : gmap string float :=
  if String.eqb key "__proto__" then object else <[key := value]> object.

(** The thresholds [updateScene] collects for the start room. *)
Definition customProximityValues (scenePortals : list Portal) : gmap string float :=
  fold_left
    (fun values portal =>
       if String.eqb (portal_direction portal) "north"
          && String.prefix "http" (portal_targetScene portal)
       then assign (portal_id portal) 0.25 values
       else values)
    scenePortals ∅.

(** The loop over the portals with a custom threshold: the first one
    the player is near, if any. *)
Fixpoint customLoop (values : gmap string float) (scenePortals : list Portal)
    (playerGridX playerGridY : float) : option string :=
  match scenePortals with
  | [] => None
  | portal :: rest =>
      match values !! portal_id portal with
      | Some threshold =>
          if Js.truthy threshold
             && withinThreshold portal playerGridX playerGridY threshold
          then Some (portal_id portal)
          else customLoop values rest playerGridX playerGridY
      | None => customLoop values rest playerGridX playerGridY
      end
  end.

Section WithCollaborators.

(** The scene manager and the portal system are other modules; the
    integration loop is written against their interfaces. *)
Variable SceneManager : Type.
Variable getCurrentScene : SceneManager -> option string.
Variable transitionTo : string -> SceneManager -> SceneManager.
Variable getPortalsForScene : string -> list Portal.

(** Modelled from the spec: [PortalSystem.getNearbyPortals] lives in
    portalSystem.js, which is not among the sources.  It "returns the
    set of portal identifiers within [max(|dx|, |dy|) <= threshold]
    (Chebyshev distance ...) of the player, scoped to the given
    scene". *)
Definition getNearbyPortals (playerGridX playerGridY : float) (sceneId : string)
    (threshold : float) : list string :=
  map portal_id
    (List.filter (fun portal => withinThreshold portal playerGridX playerGridY threshold)
       (getPortalsForScene sceneId)).

Record State := mkState {
  sceneManager : SceneManager;
  consumedKeys : ConsumedKeys;
  transitions : list string          (* arguments of transitionTo, in order *)
}.

Definition fire (direction : string) (consumed : ConsumedKeys) (st : State)
    : State :=
  {| sceneManager := transitionTo direction (sceneManager st);
     consumedKeys := consumed;
     transitions := (transitions st ++ [direction])%list |}.

(** [handleSceneTransitions()]; [isKeyPressed] is [input.isKeyPressed]
    during this frame. *)
Definition handleSceneTransitions (isKeyPressed : string -> bool) (st : State)
    : State :=
  match getCurrentScene (sceneManager st) with
  | None => st
  | Some _ =>
      let st :=
        let c := consumedKeys st in
        if isKeyPressed "e" && isKeyPressed "Shift" && negb (ShiftE c)
        then fire "north" (mkConsumed true (ShiftD c) (ShiftS c) (ShiftF c)) st
        else st in
      let st :=
        let c := consumedKeys st in
        if isKeyPressed "d" && isKeyPressed "Shift" && negb (ShiftD c)
        then fire "south" (mkConsumed (ShiftE c) true (ShiftS c) (ShiftF c)) st
        else st in
      let st :=
        let c := consumedKeys st in
        if isKeyPressed "s" && isKeyPressed "Shift" && negb (ShiftS c)
        then fire "west" (mkConsumed (ShiftE c) (ShiftD c) true (ShiftF c)) st
        else st in
      let st :=
        let c := consumedKeys st in
        if isKeyPressed "f" && isKeyPressed "Shift" && negb (ShiftF c)
        then fire "east" (mkConsumed (ShiftE c) (ShiftD c) (ShiftS c) true) st
        else st in
      st
  end.

(** The portal detection of [updateScene]: the identifiers in
    [nearbyPortals]. *)
Definition nearbyPortals (sceneId : string) (playerGridX playerGridY : float)
    : list string :=
  let proximityThreshold := 0.5 in
  let custom :=
    if String.eqb sceneId "startRoom" then
      let scenePortals := getPortalsForScene sceneId in
      customLoop (customProximityValues scenePortals) scenePortals
        playerGridX playerGridY
    else None in
  match custom with
  | Some id => [id]
  | None => getNearbyPortals playerGridX playerGridY sceneId proximityThreshold
  end.

(** The portal that [updateScene] passes to
    [portalSystem.transitionThroughPortal], if it does. *)
Definition portalStep (sceneId : string) (player : option Player)
    : option string :=
  match player with
  | Some pl =>
      match player_x pl, player_y pl with
      | Some px, Some py =>
          let playerGridX := default (Js.floor px) (player_gridX pl) in
          let playerGridY := default (Js.floor py) (player_gridY pl) in
          match nearbyPortals sceneId playerGridX playerGridY with
          | portalId :: _ =>
              if player_z pl <=? 0.1 then Some portalId else None
          | [] => None
          end
      | _, _ => None
      end
  | None => None
  end.

(** [updateScene(deltaTime, player)] without the rendering: the state
    afterwards and the portal handed to [transitionThroughPortal]. *)
Definition updateScene (isKeyPressed : string -> bool) (player : option Player)
    (st : State) : State * option string :=
  let st := handleSceneTransitions isKeyPressed st in
  let st := {| sceneManager := sceneManager st;
               consumedKeys := noneConsumed;
               transitions := transitions st |} in
  match getCurrentScene (sceneManager st) with
  | Some sceneId => (st, portalStep sceneId player)
  | None => (st, None)
  end.

(** A run of frames, one key snapshot per frame. *)
Definition run (keys : list (string -> bool)) (player : option Player)
    (st : State) : State :=
  fold_left (fun st isKeyPressed => fst (updateScene isKeyPressed player st))
    keys st.

End WithCollaborators.

(** The directions of the chords that a key snapshot holds down, in the
    order in which [handleSceneTransitions] tests them. *)
Definition heldChords (isKeyPressed : string -> bool) : list string :=
  ((if isKeyPressed "e" && isKeyPressed "Shift" then ["north"] else [])
   ++ (if isKeyPressed "d" && isKeyPressed "Shift" then ["south"] else [])
   ++ (if isKeyPressed "s" && isKeyPressed "Shift" then ["west"] else [])
   ++ (if isKeyPressed "f" && isKeyPressed "Shift" then ["east"] else []))%list.

(** A portal that [updateScene] singles out in the start room: a north
    portal that leads to a URL. *)
Definition leadsNorthToUrl (portal : Portal) : bool :=
  String.eqb (portal_direction portal) "north"
  && String.prefix "http" (portal_targetScene portal).

(** The portals of [scenePortals] that are tested with the custom
    threshold: those that share their identifier with a north portal that
    leads to a URL, unless the identifier is [__proto__], which
    [customProximityValues] cannot hold. *)
Definition hasCustomThreshold (scenePortals : list Portal) (portal : Portal) : bool :=
  negb (String.eqb (portal_id portal) "__proto__")
  && existsb
       (fun other => String.eqb (portal_id other) (portal_id portal)
                     && leadsNorthToUrl other)
       scenePortals.

(** The portal that the custom-threshold loop looks for: the first one
    with a custom threshold that the player is within 0.25 of. *)
Definition firstCustomPortal (scenePortals : list Portal)
    (playerGridX playerGridY : float) : option Portal :=
  find (fun portal => hasCustomThreshold scenePortals portal
                      && withinThreshold portal playerGridX playerGridY 0.25)
    scenePortals.

End SceneIntegration.

(** ** sceneData.js: the scene registry *)

Module SceneData.
Import Doorways.

Definition at_xy (x y : float) : option Position :=
  Some (mkPosition (Some x) (Some y)).

Definition startRoom : Scene :=
  {| scene_width := 400; scene_height := 300;
     scene_exits := Some
       [ mkExit "north" (Some "https://aialchemistart.github.io/Circuit-Sanctum-Arcade/")
           (at_xy 200 0) (Some 8) (Some 0) false;
         mkExit "east" (Some "comingSoon")
           (at_xy 400 150) (Some 0) (Some 5.3) true ] |}.

Definition circuitSanctum : Scene :=
  {| scene_width := 800; scene_height := 600;
     scene_exits := Some
       [ mkExit "south" (Some "startRoom") (at_xy 400 600) (Some 8) (Some 14) false ] |}.

Definition neonPhylactery : Scene :=
  {| scene_width := 800; scene_height := 600;
     scene_exits := Some
       [ mkExit "west" (Some "startRoom") (at_xy 0 300) (Some 14) (Some 6.3) false ] |}.

Definition scenes : gmap string Scene :=
  <["startRoom" := startRoom]>
    (<["circuitSanctum" := circuitSanctum]>
       (<["neonPhylactery" := neonPhylactery]> ∅)).

End SceneData.

(** ** Scenarios used by the examples below *)

Module Scenarios.
Import Doorways SceneData.

(** The start room's north door, as [initDoorways] builds it. *)
Definition northDoor : Doorway :=
  exitDoorway "startRoom" startRoom
    (mkExit "north" (Some "https://aialchemistart.github.io/Circuit-Sanctum-Arcade/")
       (at_xy 200 0) (Some 8) (Some 0) false).

(** The player is near on the frame at 0 ms, away on the frame at 16 ms,
    and near again on every frame from 32 ms to 800 ms. *)
Definition returning : list Sample :=
  mkSample 0 0.016 true :: mkSample 16 0.016 false ::
  map (fun i => mkSample (32 + 16 * Z.of_nat i) 0.016 true) (seq 0 49).

(** The circuit sanctum's south door, which hangs on the north wall plane
    at [(8, 14)]. *)
Definition southDoor : Doorway :=
  exitDoorway "circuitSanctum" circuitSanctum
    (mkExit "south" (Some "startRoom") (at_xy 400 600) (Some 8) (Some 14) false).

(** The start room's east exit, flagged [comingSoon]. *)
Definition eastExit : Exit :=
  mkExit "east" (Some "comingSoon") (at_xy 400 150) (Some 0) (Some 5.3) true.

(** An exit of the neon phylactery configured somewhere else. *)
Definition movedExit : Exit :=
  mkExit "west" (Some "startRoom") (at_xy 640 480) (Some 3) (Some 4) false.

(** A registry whose neon phylactery has that exit only. *)
Definition movedRegistry : gmap string Scene :=
  {["neonPhylactery" := mkScene 800 600 (Some [movedExit])]}.

(** A registry with one exit that is not on a wall: it has no target and
    is flagged [comingSoon]. *)
Definition inertExit : Exit :=
  mkExit "down" None (at_xy 100 75) (Some 4) (Some 4) true.

Definition annex : Scene :=
  {| scene_width := 400; scene_height := 300; scene_exits := Some [inertExit] |}.

Definition annexRegistry : gmap string Scene := {["annex" := annex]}.

(** A floor portal at the grid position [(8, 0)]. *)
Definition floorPortal : Doorway :=
  exitDoorway "annex" annex
    (mkExit "down" (Some "startRoom") (at_xy 200 0) (Some 8) (Some 0) false).

(** Seven frames, 0.1 s apart, with the player standing on the annex's
    floor exit. *)
Definition lingering : list Frame :=
  map (fun i => mkFrame (Some "annex") (100 * Z.of_nat i) 0.1 4 4) (seq 1 7).

(** Portals and pages for the portal examples. *)
Definition exitPortal : VibePortal.VibePortalEntity :=
  VibePortal.construct 14 10 0 (VibePortal.mkOptions (Some "exit") None None None).

Definition startPortal : VibePortal.VibePortalEntity :=
  VibePortal.construct 20 15 0 (VibePortal.mkOptions (Some "start") None None None).

(** An exit portal whose target already carries a query. *)
Definition roomPortal : VibePortal.VibePortalEntity :=
  VibePortal.construct 14 10 0
    (VibePortal.mkOptions (Some "exit") (Some "https://example.com/?room=1") None None).

(** An exit portal whose target carries a fragment. *)
Definition lobbyPortal : VibePortal.VibePortalEntity :=
  VibePortal.construct 14 10 0
    (VibePortal.mkOptions (Some "exit") (Some "https://example.com/#lobby") None None).

(** A page opened from a file: its hostname is empty. *)
Definition localPage : VibePortal.Window :=
  VibePortal.mkWindow "" "" None.

Definition hostedPage : VibePortal.Window :=
  VibePortal.mkWindow "mygame.io" "" None.

Definition arrivingPage : VibePortal.Window :=
  VibePortal.mkWindow "mygame.io" "?ref=foo.com&x=1" None.

Definition plainPage : VibePortal.Window :=
  VibePortal.mkWindow "mygame.io" "?x=1" None.

(** Options that ask for an entry range of 5 and leave the interaction
    distance at its default. *)
Definition wideEntry : VibePortal.Options :=
  VibePortal.mkOptions None None None (Some 5).

(** A key snapshot with Shift and E down and nothing else. *)
Definition shiftE : string -> bool :=
  fun key => String.eqb key "e" || String.eqb key "Shift".

(** A scene manager that always has the start room loaded. *)
Definition startRoomLoaded : unit -> option string := fun _ => Some "startRoom".

Definition stay : string -> unit -> unit := fun _ sm => sm.

(** A portal at the origin of the grid. *)
Definition originPortal : SceneIntegration.Portal :=
  SceneIntegration.mkPortal "origin" "south" "circuitSanctum" 0 0.

(** The start room's arcade portal (north, leading to a URL) and a second
    portal a quarter of a grid unit beside it. *)
Definition arcadePortal : SceneIntegration.Portal :=
  SceneIntegration.mkPortal "arcade" "north"
    "https://aialchemistart.github.io/Circuit-Sanctum-Arcade/" 8 0.

Definition otherPortal : SceneIntegration.Portal :=
  SceneIntegration.mkPortal "other" "east" "circuitSanctum" 8.25 0.

Definition startRoomPortals : string -> list SceneIntegration.Portal :=
  fun sceneId =>
    if String.eqb sceneId "startRoom" then [arcadePortal; otherPortal] else [].

End Scenarios.

(** * Properties *)

(** ** The order of binary64 numbers *)

Module FloatFacts.

Local Ltac cmp_cases :=
  repeat match goal with
    | H : context [(?a ?= ?b)%Z] |- _ => destruct (Z.compare_spec a b)
    | |- context [(?a ?= ?b)%Z] => destruct (Z.compare_spec a b)
    | H : context [(?a ?= ?b)%positive] |- _ => destruct (Pos.compare_spec a b)
    | |- context [(?a ?= ?b)%positive] => destruct (Pos.compare_spec a b)
    end.

Local Ltac sf_crush :=
  cbn in *;
  change PosDef.Pos.compare_cont with Pos.compare_cont in *;
  repeat match goal with
    | H : context [Pos.compare_cont Eq ?a ?b] |- _ =>
        change (Pos.compare_cont Eq a b) with (Pos.compare a b) in H
    | |- context [Pos.compare_cont Eq ?a ?b] =>
        change (Pos.compare_cont Eq a b) with (Pos.compare a b)
    end;
  repeat match goal with
    | s : bool |- _ => destruct s
    end;
  cbn in *; try congruence;
  cmp_cases; cbn in *; subst; try congruence; try lia.

Lemma SFcompare_refl a : a <> S754_nan -> SFcompare a a = Some Eq.
Proof.
  destruct a as [s|s| |s m e]; intros Hn; try congruence; cbn.
  - reflexivity.
  - now destruct s.
  - change PosDef.Pos.compare_cont with Pos.compare_cont.
    change (Pos.compare_cont Eq m m) with (Pos.compare m m).
    rewrite Z.compare_refl, Pos.compare_refl. now destruct s.
Qed.

Lemma SFltb_leb_false a b : SFltb a b = true -> SFleb b a = false.
Proof.
  unfold SFltb, SFleb. destruct a as [s1|s1| |s1 m1 e1], b as [s2|s2| |s2 m2 e2];
    sf_crush.
Qed.

Lemma SFltb_leb a b : SFltb a b = true -> SFleb a b = true.
Proof.
  unfold SFltb, SFleb. now destruct (SFcompare a b) as [[]|].
Qed.

Lemma SFleb_trans a b c : SFleb a b = true -> SFleb b c = true -> SFleb a c = true.
Proof.
  unfold SFleb.
  destruct a as [s1|s1| |s1 m1 e1], b as [s2|s2| |s2 m2 e2], c as [s3|s3| |s3 m3 e3];
    sf_crush.
Qed.

(** Two numbers neither of which is below the other, and neither [NaN],
    compare alike with every third. *)
Lemma SFleb_tie a b c :
  a <> S754_nan -> b <> S754_nan ->
  SFltb a b = false -> SFltb b a = false -> SFleb a c = SFleb b c.
Proof.
  unfold SFltb, SFleb.
  destruct a as [s1|s1| |s1 m1 e1], b as [s2|s2| |s2 m2 e2], c as [s3|s3| |s3 m3 e3];
    intros Ha Hb; try congruence; sf_crush.
Qed.

Lemma SFleb_nan_l c : SFleb S754_nan c = false.
Proof. reflexivity. Qed.

Lemma is_nan_spec (x : float) : is_nan x = true <-> Prim2SF x = S754_nan.
Proof.
  unfold is_nan. rewrite FloatAxioms.eqb_spec. unfold SFeqb. split.
  - destruct (Prim2SF x) eqn:E; try reflexivity;
      rewrite SFcompare_refl by discriminate; discriminate.
  - now intros ->.
Qed.

Lemma is_nan_false (x : float) : is_nan x = false -> Prim2SF x <> S754_nan.
Proof.
  intros H Hn. apply is_nan_spec in Hn. congruence.
Qed.

(** [x < y] excludes [y <= x]. *)
Lemma ltb_leb_false (x y : float) : (x <? y) = true -> (y <=? x) = false.
Proof.
  rewrite FloatAxioms.ltb_spec, FloatAxioms.leb_spec. apply SFltb_leb_false.
Qed.

Lemma ltb_leb (x y : float) : (x <? y) = true -> (x <=? y) = true.
Proof.
  rewrite FloatAxioms.ltb_spec, FloatAxioms.leb_spec. apply SFltb_leb.
Qed.

Lemma leb_trans (x y z : float) :
  (x <=? y) = true -> (y <=? z) = true -> (x <=? z) = true.
Proof.
  rewrite !FloatAxioms.leb_spec. apply SFleb_trans.
Qed.

Lemma leb_nan (x t : float) : is_nan x = true -> (x <=? t) = false.
Proof.
  intros H. apply is_nan_spec in H. now rewrite FloatAxioms.leb_spec, H.
Qed.

(** [Math.max(a, b) <= t] exactly when [a <= t] and [b <= t]. *)
Lemma leb_max (a b t : float) :
  (Js.max a b <=? t) = (a <=? t) && (b <=? t).
Proof.
  unfold Js.max.
  destruct (is_nan a) eqn:Ha; cbn [orb].
  { now rewrite (leb_nan a t Ha), (leb_nan nan t eq_refl). }
  destruct (is_nan b) eqn:Hb.
  { rewrite (leb_nan b t Hb), (leb_nan nan t eq_refl). now rewrite andb_false_r. }
  destruct (a <? b) eqn:Hab.
  { destruct (b <=? t) eqn:Hbt; [| now rewrite andb_false_r].
    now rewrite (leb_trans a b t (ltb_leb _ _ Hab) Hbt). }
  destruct (b <? a) eqn:Hba.
  { destruct (a <=? t) eqn:Hat; [| reflexivity].
    now rewrite (leb_trans b a t (ltb_leb _ _ Hba) Hat). }
  assert (Htie : (a <=? t) = (b <=? t)).
  { rewrite !FloatAxioms.leb_spec. rewrite FloatAxioms.ltb_spec in Hab, Hba.
    apply SFleb_tie; auto using is_nan_false. }
  destruct (Js.isNegativeZero a); rewrite Htie; now destruct (b <=? t).
Qed.

Lemma SFleb_pos_nonzero z a x :
  SFltb z a = true -> SFleb a x = true -> SFeqb x z = false.
Proof.
  unfold SFltb, SFleb, SFeqb.
  destruct z as [s1|s1| |s1 m1 e1], a as [s2|s2| |s2 m2 e2], x as [s3|s3| |s3 m3 e3];
    sf_crush.
Qed.

Lemma leb_not_nan_r (a x : float) : (a <=? x) = true -> is_nan x = false.
Proof.
  intros H. destruct (is_nan x) eqn:E; [| reflexivity].
  apply is_nan_spec in E. rewrite FloatAxioms.leb_spec, E in H.
  now destruct (Prim2SF a) as [[]|[]| |[]].
Qed.

Lemma leb_pos_truthy (z a x : float) :
  (z <? a) = true -> (a <=? x) = true -> (x =? z) = false.
Proof.
  rewrite FloatAxioms.ltb_spec, FloatAxioms.leb_spec, FloatAxioms.eqb_spec.
  apply SFleb_pos_nonzero.
Qed.

(** A number at or above a positive one is truthy. *)
Lemma truthy_above (a x : float) :
  (0 <? a) = true -> (a <=? x) = true -> Js.truthy x = true.
Proof.
  intros Ha Hx. unfold Js.truthy.
  now rewrite (leb_pos_truthy 0 a x Ha Hx), (leb_not_nan_r a x Hx).
Qed.

End FloatFacts.

(** ** Wall doors: the open/close state machine *)

Module DoorwayProofs.
Import Js FloatFacts Doorways SceneData Scenarios.

Lemma update_floor_portal now deltaTime isPlayerNear d :
  isWallDoorway d = false -> update now deltaTime isPlayerNear d = d.
Proof. unfold update. now intros ->. Qed.

(** A wall door is open after every update that reports the player near. *)
Lemma update_near_opens now deltaTime d :
  isWallDoorway d = true -> isOpen (update now deltaTime true d) = true.
Proof.
  unfold update. intros ->. cbn [andb negb].
  destruct (isOpen d) eqn:Ho; cbn [negb]; [exact Ho |].
  cbn [closeTimeout set_isOpen]. now destruct (closeTimeout d).
Qed.

(** An update reporting the player near leaves a door that is already
    open as it is: a close that is pending stays pending. *)
Lemma update_near_open_unchanged now deltaTime d :
  isOpen d = true -> update now deltaTime true d = d.
Proof.
  unfold update. intros ->. cbn [andb negb]. now destruct (isWallDoorway d).
Qed.

(** The first update reporting the player away from an open wall door
    arms the close timer, 800 ms ahead. *)
Lemma update_far_arms_timer now deltaTime d :
  isWallDoorway d = true -> isOpen d = true -> closeTimeout d = None ->
  update now deltaTime false d = set_closeTimeout (Some (now + 800)%Z) d.
Proof.
  unfold update. intros -> -> ->. reflexivity.
Qed.

(** Once armed, the timer closes the door at its deadline whatever the
    updates in between reported. *)
Lemma pending_close_survives (ss : list Sample) (d : Doorway) (t : Z) :
  isWallDoorway d = true -> isOpen d = true -> closeTimeout d = Some t ->
  Forall (fun s => (at_ms s < t)%Z) ss ->
  frames ss d = d.
Proof.
  intros Hw Ho Ht. induction 1 as [|s ss Hs _ IH]; [reflexivity |].
  unfold frames in *. cbn [fold_left].
  replace (frame s d) with d; [exact IH |].
  unfold frame, runTimers. rewrite Ht.
  destruct (Z.leb_spec t (at_ms s)) as [Hle|_]; [lia |].
  unfold update. rewrite Hw, Ho, Ht. now destruct (near s).
Qed.

(** C1 (the code departs from the claim).  The close armed by the one
    sample away from the door is not cancelled by the samples that report
    the player near again: after 49 such samples the timer is still
    pending, and at 816 ms it closes the door although the player has been
    in range since 32 ms. *)
Theorem wall_door_closes_despite_return :
  isWallDoorway northDoor = true /\
  isOpen (frames (firstn 1 returning) northDoor) = true /\
  closeTimeout (frames (firstn 2 returning) northDoor) = Some 816%Z /\
  Forall (fun s => near s = true) (skipn 2 returning) /\
  closeTimeout (frames returning northDoor) = Some 816%Z /\
  isOpen (frames returning northDoor) = true /\
  isOpen (runTimers 816 (frames returning northDoor)) = false.
Proof.
  repeat split; try (vm_compute; reflexivity).
  unfold returning. cbn [skipn]. apply Forall_map, Forall_forall. reflexivity.
Qed.

(** ** Proximity *)

(** C3 (as amended).  The proximity flag is [distance < 3.0], with
    [distance] the Euclidean grid distance as the code computes it in
    double precision ([Math.sqrt(dx*dx + dy*dy)] over the absolute
    coordinate differences), together with the wall guards: a door on the
    north wall plane is never near a player with [playerY > 5], and a door
    on the west wall plane is never near a player with [playerX > 5].  The
    inequality is strict: at a computed distance of exactly 3.0 the flag is
    false.  For a floor portal the flag is the distance test alone. *)
Theorem proximity_is_distance_and_wall_guard (d : Doorway) (px py : float) :
  (isPlayerColliding d px py = true <->
     (distance d px py <? 3) = true
     /\ ~ (isWallDoorway d = true /\ wallSide d = Some north /\ (5 <? py) = true)
     /\ ~ (isWallDoorway d = true /\ wallSide d = Some west /\ (5 <? px) = true))
  /\ (distance d px py = 3 -> isPlayerColliding d px py = false)
  /\ (isWallDoorway d = false ->
      isPlayerColliding d px py = (distance d px py <? 3))
  /\ distance d px py
     = sqrt (abs (gridX d - px) * abs (gridX d - px)
             + abs (gridY d - py) * abs (gridY d - py))
  /\ (distance floorPortal 5 4 = 5 /\ isPlayerColliding floorPortal 5 4 = false)
  /\ (distance floorPortal 8 3 = 3 /\ isPlayerColliding floorPortal 8 3 = false)
  /\ (distance floorPortal 5.0000000000000009 7.07e-8 = 3
      /\ isPlayerColliding floorPortal 5.0000000000000009 7.07e-8 = false)
  /\ isPlayerColliding floorPortal 8 2.9999999999999996 = true.
Proof.
  assert (Hmain : isPlayerColliding d px py = true <->
     (distance d px py <? 3) = true
     /\ ~ (isWallDoorway d = true /\ wallSide d = Some north /\ (5 <? py) = true)
     /\ ~ (isWallDoorway d = true /\ wallSide d = Some west /\ (5 <? px) = true)).
  { unfold isPlayerColliding. cbv zeta.
    destruct (isWallDoorway d); cbn [andb].
    - destruct (bool_decide_reflect (wallSide d = Some north)) as [Hn|Hn];
        destruct (bool_decide_reflect (wallSide d = Some west)) as [Hw|Hw];
        destruct (5 <? py) eqn:Hpy; destruct (5 <? px) eqn:Hpx;
        cbn [andb]; intuition congruence.
    - intuition congruence. }
  split; [exact Hmain |]. split; [| split; [| split]].
  - intros Heq. apply not_true_is_false. intros H.
    apply Hmain in H as (Hlt & _). rewrite Heq in Hlt. discriminate Hlt.
  - intros Hf. unfold isPlayerColliding. rewrite Hf. reflexivity.
  - reflexivity.
  - repeat split; vm_compute; reflexivity.
Qed.

(** C3 (as stated) fails: one grid unit in front of the circuit sanctum's
    south door, which hangs on the north wall plane at [(8, 14)], the
    distance is 1, below 3.0, and the flag is false, because
    [playerY > 5]. *)
Lemma proximity_not_distance_alone :
  gridX southDoor = 8 /\ gridY southDoor = 14 /\
  distance southDoor 8 13 = 1 /\ (distance southDoor 8 13 <? 3) = true /\
  isPlayerColliding southDoor 8 13 = false.
Proof.
  repeat split; vm_compute; reflexivity.
Qed.

(** ** initDoorways *)

Lemma lookup_initDoorways (scenes : gmap string Scene) (sceneName : string) :
  initDoorways scenes !! sceneName =
  sceneDoorways sceneName <$> (scenes !! sceneName).
Proof.
  unfold initDoorways. rewrite map_lookup_imap.
  now destruct (scenes !! sceneName).
Qed.

Lemma exitDoorway_direction sceneName scene exit :
  direction (exitDoorway sceneName scene exit) = exit_direction exit.
Proof.
  unfold exitDoorway. cbv zeta.
  repeat (match goal with |- context [if ?b then _ else _] => destruct b end);
    reflexivity.
Qed.

Lemma exitDoorway_target sceneName scene exit :
  targetScene (exitDoorway sceneName scene exit) = exit_to exit.
Proof.
  unfold exitDoorway. cbv zeta.
  repeat (match goal with |- context [if ?b then _ else _] => destruct b end);
    reflexivity.
Qed.

(** A cardinal exit becomes a wall doorway, any other exit a floor
    portal. *)
Lemma exitDoorway_wall sceneName scene exit :
  isWallDoorway (exitDoorway sceneName scene exit)
  = isCardinal (exit_direction exit).
Proof.
  unfold exitDoorway. cbv zeta.
  destruct (isCardinal (exit_direction exit));
    repeat (match goal with |- context [if ?b then _ else _] => destruct b end);
    reflexivity.
Qed.

Lemma startRoom_east_forced scene exit :
  exit_direction exit = "east" ->
  let d := exitDoorway "startRoom" scene exit in
  wallSide d = Some west /\ gridX d = 0 /\ gridY d = 5.3.
Proof.
  intros He. unfold exitDoorway. rewrite He. cbv zeta.
  repeat split; reflexivity.
Qed.

Lemma neonPhylactery_west_forced scene exit :
  exit_direction exit = "west" ->
  let d := exitDoorway "neonPhylactery" scene exit in
  wallSide d = Some west /\ gridX d = 14 /\ gridY d = 6.3.
Proof.
  intros He. unfold exitDoorway. rewrite He. cbv zeta.
  repeat split; reflexivity.
Qed.

(** C10.  Whatever the registry says, the doorway that [initDoorways]
    builds for an exit of direction [east] of [startRoom] keeps that
    direction, is a wall doorway on the west wall plane at grid position
    (0, 5.3), and is filed under [startRoom]; the one it builds for an exit
    of direction [west] of [neonPhylactery] is a wall doorway on the west
    wall plane at (14.0, 6.3), filed under [neonPhylactery].  The exit's
    own [gridX], [gridY] and [position] play no part, and every doorway of
    that direction filed under the scene has the forced placement. *)
Theorem special_doors_forced
    (scenes : gmap string Scene) (sceneName way : string) (scene : Scene)
    (exits : list Exit) (exit : Exit) (gx gy : float) :
  (sceneName = "startRoom" /\ way = "east" /\ gx = 0 /\ gy = 5.3) \/
  (sceneName = "neonPhylactery" /\ way = "west" /\ gx = 14.0 /\ gy = 6.3) ->
  scenes !! sceneName = Some scene ->
  scene_exits scene = Some exits ->
  In exit exits ->
  exit_direction exit = way ->
  let d := exitDoorway sceneName scene exit in
  direction d = way /\ targetScene d = exit_to exit
  /\ isWallDoorway d = true /\ wallSide d = Some west
  /\ gridX d = gx /\ gridY d = gy
  /\ initDoorways scenes !! sceneName = Some (map (exitDoorway sceneName scene) exits)
  /\ In d (map (exitDoorway sceneName scene) exits)
  /\ (forall d', In d' (map (exitDoorway sceneName scene) exits) ->
        direction d' = way ->
        wallSide d' = Some west /\ gridX d' = gx /\ gridY d' = gy).
Proof.
  intros Hcase Hs Hexits Hin Hway. cbv zeta.
  assert (Hforced : forall e, exit_direction e = way ->
            wallSide (exitDoorway sceneName scene e) = Some west
            /\ gridX (exitDoorway sceneName scene e) = gx
            /\ gridY (exitDoorway sceneName scene e) = gy).
  { intros e He.
    destruct Hcase as [(-> & -> & -> & ->) | (-> & -> & -> & ->)].
    - now apply startRoom_east_forced.
    - now apply neonPhylactery_west_forced. }
  destruct (Hforced exit Hway) as (Hside & Hgx & Hgy).
  split; [rewrite exitDoorway_direction; exact Hway |].
  split; [apply exitDoorway_target |].
  split.
  { rewrite exitDoorway_wall, Hway.
    destruct Hcase as [(_ & -> & _) | (_ & -> & _)]; reflexivity. }
  split; [exact Hside |]. split; [exact Hgx |]. split; [exact Hgy |].
  split.
  { rewrite lookup_initDoorways, Hs. cbn. unfold sceneDoorways. now rewrite Hexits. }
  split; [now apply in_map |].
  intros d' Hd Hdir. apply in_map_iff in Hd as (e & <- & _).
  rewrite exitDoorway_direction in Hdir. now apply Hforced.
Qed.

Lemma special_doors_forced_witness :
  let d := exitDoorway "neonPhylactery" (mkScene 800 600 (Some [movedExit])) movedExit in
  exit_gridX movedExit = Some 3 /\ exit_gridY movedExit = Some 4
  /\ direction d = "west" /\ wallSide d = Some west
  /\ gridX d = 14.0 /\ gridY d = 6.3
  /\ initDoorways movedRegistry !! "neonPhylactery" = Some [d].
Proof.
  cbv zeta.
  pose proof (special_doors_forced movedRegistry "neonPhylactery" "west"
                (mkScene 800 600 (Some [movedExit])) [movedExit] movedExit 14.0 6.3)
    as H.
  destruct H as (Hdir & _ & _ & Hside & Hgx & Hgy & Hfiled & _).
  - right. repeat split; reflexivity.
  - reflexivity.
  - reflexivity.
  - left. reflexivity.
  - reflexivity.
  - repeat split; try reflexivity; assumption.
Defined.

(** ** DoorwayManager.update: the transition cooldown *)

Lemma update_isWallDoorway now deltaTime isPlayerNear d :
  isWallDoorway (update now deltaTime isPlayerNear d) = isWallDoorway d.
Proof.
  unfold update. destruct (isWallDoorway d) eqn:Hw; [| exact Hw].
  destruct (isPlayerNear && negb (isOpen d)).
  - cbn [closeTimeout set_isOpen]. now destruct (closeTimeout d).
  - destruct (negb isPlayerNear && isOpen d); [| exact Hw].
    now destruct (closeTimeout d).
Qed.

Lemma update_targetScene now deltaTime isPlayerNear d :
  targetScene (update now deltaTime isPlayerNear d) = targetScene d.
Proof.
  unfold update. destruct (isWallDoorway d); [| reflexivity].
  destruct (isPlayerNear && negb (isOpen d)).
  - cbn [closeTimeout set_isOpen]. now destruct (closeTimeout d).
  - destruct (negb isPlayerNear && isOpen d); [| reflexivity].
    now destruct (closeTimeout d).
Qed.

Lemma runTimers_isWallDoorway now d :
  isWallDoorway (runTimers now d) = isWallDoorway d.
Proof.
  unfold runTimers. destruct (closeTimeout d); [| reflexivity].
  now destruct (_ <=? _)%Z.
Qed.

Lemma frames_isWallDoorway ss d :
  isWallDoorway (frames ss d) = isWallDoorway d.
Proof.
  unfold frames. revert d. induction ss as [|s ss IH]; intros d; [reflexivity |].
  cbn [fold_left]. rewrite IH. unfold frame.
  now rewrite update_isWallDoorway, runTimers_isWallDoorway.
Qed.

Section Visit.

Variables (now : Z) (deltaTime playerX playerY : float).

Local Abbreviation visit := (visit now deltaTime playerX playerY).
Local Abbreviation visitAll := (visitAll now deltaTime playerX playerY).

(** While the cooldown is positive a visit makes no call. *)
Lemma visit_blocked st d :
  (0 <? loop_cooldown st) = true -> fst (visit st d) = st.
Proof.
  intros Hc. unfold Doorways.visit.
  now rewrite (ltb_leb_false _ _ Hc).
Qed.

(** A wall doorway makes no call. *)
Lemma visit_wall st d :
  isWallDoorway d = true -> fst (visit st d) = st.
Proof.
  intros Hw. unfold Doorways.visit.
  rewrite update_isWallDoorway, Hw.
  now rewrite andb_false_r.
Qed.

(** A visit either leaves the loop state alone or makes one call, for a
    floor portal the player is near, with the cooldown at or below zero,
    and sets the cooldown to 0.5. *)
Lemma visit_cases st d :
  fst (visit st d) = st \/
  ((loop_cooldown st <=? 0) = true /\ isWallDoorway d = false /\
   isPlayerColliding d playerX playerY = true /\
   fst (visit st d) = mkLoop 0.5 (loop_calls st ++ [targetScene d])).
Proof.
  unfold Doorways.visit. rewrite update_isWallDoorway, update_targetScene.
  destruct (loop_cooldown st <=? 0) eqn:Hc; [| now left].
  destruct (isPlayerColliding d playerX playerY); [| now left].
  destruct (isWallDoorway d); [now left |].
  right. repeat split.
Qed.

Lemma visitAll_blocked ds st :
  (0 <? loop_cooldown st) = true -> fst (visitAll st ds) = st.
Proof.
  intros Hc. induction ds as [|d ds IH]; [reflexivity |].
  cbn [Doorways.visitAll].
  pose proof (visit_blocked st d Hc) as Hv.
  destruct (visit st d) as [st1 d1]. cbn [fst] in Hv. subst st1.
  destruct (visitAll st ds) as [st2 ds2]. exact IH.
Qed.

(** The whole loop makes at most one call. *)
Lemma visitAll_cases ds st :
  fst (visitAll st ds) = st \/
  ((loop_cooldown st <=? 0) = true /\
   exists d, In d ds /\ isWallDoorway d = false /\
     isPlayerColliding d playerX playerY = true /\
     fst (visitAll st ds) = mkLoop 0.5 (loop_calls st ++ [targetScene d])).
Proof.
  induction ds as [|d ds IH]; [now left |].
  cbn [Doorways.visitAll].
  destruct (visit_cases st d) as [Hv | (Hc & Hw & Hn & Hv)].
  - destruct (visit st d) as [st1 d1]. cbn [fst] in Hv. subst st1.
    destruct (visitAll st ds) as [st2 ds2]. cbn [fst] in *.
    destruct IH as [IH | (Hc & d' & Hin & Hw & Hn & IH)]; [now left |].
    right. split; [exact Hc |]. exists d'. repeat split; try assumption.
    now right.
  - destruct (visit st d) as [st1 d1]. cbn [fst] in Hv. subst st1.
    clear IH.
    pose proof (visitAll_blocked ds (mkLoop 0.5 (loop_calls st ++ [targetScene d])))
      as Hb.
    destruct (visitAll _ ds) as [st2 ds2]. cbn [fst] in *.
    right. split; [exact Hc |]. exists d. repeat split; try assumption.
    + now left.
    + apply Hb. reflexivity.
Qed.

Lemma visitAll_walls ds st :
  Forall (fun d => isWallDoorway d = true) ds ->
  fst (visitAll st ds) = st /\
  Forall (fun d => isWallDoorway d = true) (snd (visitAll st ds)).
Proof.
  induction 1 as [|d ds Hd _ IH]; [now split |].
  cbn [Doorways.visitAll].
  pose proof (visit_wall st d Hd) as Hv.
  assert (Hw : isWallDoorway (snd (visit st d)) = true).
  { unfold Doorways.visit.
    destruct (_ && _); cbn [snd]; now rewrite update_isWallDoorway. }
  destruct (visit st d) as [st1 d1]. cbn [fst snd] in Hv, Hw. subst st1.
  destruct (visitAll st ds) as [st2 ds2]. cbn [fst snd] in *.
  destruct IH as [-> IH]. split; [reflexivity |]. now constructor.
Qed.

End Visit.

(** What one [DoorwayManager.update] does to the cooldown and which calls
    it makes. *)
Lemma managerUpdate_cases currentScene now deltaTime playerX playerY m :
  let r := managerUpdate currentScene now deltaTime playerX playerY m in
  let c := decayed (transitionCooldown m) deltaTime in
  (snd r = [] /\ transitionCooldown (fst r) = c) \/
  ((c <=? 0) = true /\ transitionCooldown (fst r) = 0.5 /\
   exists id d, currentScene = Some id /\ doorwaysByScene m !! id <> None /\
     In d (default [] (doorwaysByScene m !! id)) /\
     isWallDoorway d = false /\ isPlayerColliding d playerX playerY = true /\
     snd r = [targetScene d]).
Proof.
  cbv zeta. unfold managerUpdate.
  destruct currentScene as [id|]; [| now left].
  set (c := decayed (transitionCooldown m) deltaTime).
  destruct (visitAll_cases now deltaTime playerX playerY
              (default [] (doorwaysByScene m !! id)) (mkLoop c []))
    as [Hv | (Hc & d & Hin & Hw & Hn & Hv)];
    destruct (visitAll _ _ _ _ _ _) as [st ds]; cbn [fst snd] in *; subst st;
    cbn [loop_cooldown loop_calls fst snd transitionCooldown].
  - now left.
  - right. split; [exact Hc |]. split; [reflexivity |].
    exists id, d. repeat split; try assumption.
    intros Hnone. rewrite Hnone in Hin. exact Hin.
Qed.

(** C2 (as amended).  Within one [DoorwayManager.update] a doorway
    visited while the cooldown is positive makes no [loadScene] call, and
    the update as a whole makes a call only if the cooldown, after this
    update's decrement, is at or below zero; it then makes exactly one
    call, and the cooldown afterwards is exactly 0.5.  An update that
    makes no call leaves the cooldown as decremented: if it was positive,
    it is now the double-precision difference [cooldown - deltaTime] (the
    subtraction of the language, rounded to the nearest double); if it was
    not, it is unchanged. *)
Theorem cooldown_gates_transitions
    (currentScene : option string) (now : Z) (deltaTime playerX playerY : float)
    (m : DoorwayManager) :
  let r := managerUpdate currentScene now deltaTime playerX playerY m in
  let c := transitionCooldown m in
  (forall st d, (0 <? loop_cooldown st) = true ->
     fst (visit now deltaTime playerX playerY st d) = st)
  /\ ((0 <? c) = true -> (0 <? c - deltaTime) = true -> snd r = [])
  /\ (snd r <> [] ->
      transitionCooldown (fst r) = 0.5 /\ (exists target, snd r = [target])
      /\ ((0 <? c) = true -> (c - deltaTime <=? 0) = true)
      /\ ((0 <? c) = false -> (c <=? 0) = true))
  /\ (snd r = [] -> (0 <? c) = true -> transitionCooldown (fst r) = c - deltaTime)
  /\ (snd r = [] -> (0 <? c) = false -> transitionCooldown (fst r) = c).
Proof.
  cbv zeta.
  pose proof (managerUpdate_cases currentScene now deltaTime playerX playerY m) as H.
  cbv zeta in H. unfold decayed in H.
  split; [intros st d; apply visit_blocked |].
  split; [| split; [| split]].
  - intros Hc Hd. rewrite Hc in H.
    destruct H as [[H _] | (Hle & _)]; [exact H |].
    rewrite (ltb_leb_false _ _ Hd) in Hle. discriminate Hle.
  - intros Hne.
    destruct H as [[H _] | (Hle & Hhalf & id & d & _ & _ & _ & _ & _ & Hcalls)];
      [contradiction |].
    split; [exact Hhalf |]. split; [now exists (targetScene d) |]. split.
    + intros Hc. now rewrite Hc in Hle.
    + intros Hc. now rewrite Hc in Hle.
  - intros Hnil Hc. rewrite Hc in H.
    destruct H as [[_ H] | (_ & _ & id & d & _ & _ & _ & _ & _ & Hcalls)]; [exact H |].
    rewrite Hnil in Hcalls. discriminate Hcalls.
  - intros Hnil Hc. rewrite Hc in H.
    destruct H as [[_ H] | (_ & _ & id & d & _ & _ & _ & _ & _ & Hcalls)]; [exact H |].
    rewrite Hnil in Hcalls. discriminate Hcalls.
Qed.

(** C2 (as stated) fails in its last part: the cooldown does not go down
    by exactly [deltaTime].  From 0.5, one update with [deltaTime = 0.016]
    leaves a cooldown whose exact value is not the exact difference of the
    two numbers; and with [deltaTime = 0.1] five decrements leave
    2.78e-17, still positive, so that a player standing on a floor exit is
    sent through it on the first frame and again on the seventh, not the
    sixth, although five times the exact value of [deltaTime] is more than
    0.5. *)
Lemma cooldown_decrement_is_rounded :
  decayed 0.5 0.016 = 0.5 - 0.016
  /\ match exact (0.5 - 0.016), exact 0.5, exact 0.016 with
     | Some after, Some cooldown, Some deltaTime =>
         (after == cooldown - deltaTime)%Q -> False
     | _, _, _ => False
     end
  /\ decayed (decayed (decayed (decayed (decayed 0.5 0.1) 0.1) 0.1) 0.1) 0.1
     = 2.7755575615628914e-17
  /\ (0 <? 2.7755575615628914e-17) = true
  /\ match exact 0.5, exact 0.1 with
     | Some cooldown, Some deltaTime => (cooldown - 5 * deltaTime < 0)%Q
     | _, _ => False
     end
  /\ snd (managerRun lingering (newManager annexRegistry))
     = [[None]; []; []; []; []; []; [None]].
Proof.
  split; [reflexivity |]. split; [| split; [| split; [| split]]].
  - vm_compute. discriminate.
  - vm_compute. reflexivity.
  - reflexivity.
  - vm_compute. reflexivity.
  - vm_compute. reflexivity.
Qed.

(** ** DoorwayManager.update: which doorways are followed *)

Lemma initDoorways_walls scenes :
  cardinalRegistry scenes -> allWalls (initDoorways scenes).
Proof.
  intros Hreg sceneName ds Hds.
  rewrite lookup_initDoorways in Hds.
  destruct (scenes !! sceneName) as [scene|] eqn:Hs; [| discriminate Hds].
  injection Hds as <-. unfold sceneDoorways.
  destruct (scene_exits scene) as [exits|] eqn:He; [| constructor].
  apply Forall_forall. intros d Hd.
  apply list_elem_of_In, in_map_iff in Hd as (exit & <- & Hin).
  rewrite exitDoorway_wall. eapply Hreg; eassumption.
Qed.

Lemma managerTimers_walls now m :
  allWalls (doorwaysByScene m) -> allWalls (doorwaysByScene (managerTimers now m)).
Proof.
  intros Hm sceneName ds Hds. cbn [managerTimers doorwaysByScene] in Hds.
  rewrite lookup_fmap in Hds.
  destruct (doorwaysByScene m !! sceneName) as [ds0|] eqn:H0; [| discriminate Hds].
  injection Hds as <-. specialize (Hm _ _ H0). cbn beta in Hm. clear H0.
  induction Hm as [|d ds0' Hd _ IH]; [constructor |].
  cbn [map]. constructor; [now rewrite runTimers_isWallDoorway | exact IH].
Qed.

Lemma managerUpdate_walls currentScene now deltaTime playerX playerY m :
  allWalls (doorwaysByScene m) ->
  snd (managerUpdate currentScene now deltaTime playerX playerY m) = [] /\
  allWalls (doorwaysByScene
              (fst (managerUpdate currentScene now deltaTime playerX playerY m))).
Proof.
  intros Hm. unfold managerUpdate.
  destruct currentScene as [sid|]; [| now split].
  destruct (doorwaysByScene m !! sid) as [ds|] eqn:Hds.
  - change (default [] (Some ds)) with ds.
    pose proof (visitAll_walls now deltaTime playerX playerY ds
                  (mkLoop (decayed (transitionCooldown m) deltaTime) [])
                  (Hm _ _ Hds)) as [Hst Hw].
    destruct (visitAll _ _ _ _ _ ds) as [st ds']. cbn [fst snd] in *. subst st.
    split; [reflexivity |].
    cbn [doorwaysByScene]. now apply map_Forall_insert_2.
  - change (default [] None) with (@nil Doorway).
    cbn [visitAll fst snd doorwaysByScene]. now split.
Qed.

Lemma managerRun_walls fs m :
  allWalls (doorwaysByScene m) ->
  Forall (fun calls => calls = []) (snd (managerRun fs m)).
Proof.
  revert m. induction fs as [|f fs IH]; intros m Hm; [constructor |].
  cbn [managerRun]. unfold managerFrame.
  pose proof (managerUpdate_walls (f_scene f) (f_now f) (f_deltaTime f)
                (f_playerX f) (f_playerY f) (managerTimers (f_now f) m)
                (managerTimers_walls _ _ Hm)) as [Hcalls Hw].
  destruct (managerUpdate _ _ _ _ _ _) as [m1 calls]. cbn [fst snd] in *.
  specialize (IH m1 Hw).
  destruct (managerRun fs m1) as [m2 rest]. cbn [snd] in *.
  constructor; assumption.
Qed.

Lemma shipped_registry_cardinal : cardinalRegistry scenes.
Proof.
  intros sceneName scene exits exit Hs He Hin. unfold scenes in Hs.
  repeat (apply lookup_insert_Some in Hs as [[<- <-] | [_ Hs]];
          [injection He as <-; cbn [In] in Hin;
           repeat (destruct Hin as [<- | Hin]; [reflexivity |]); contradiction |]).
  rewrite lookup_empty in Hs. discriminate Hs.
Qed.

(** C4 (as amended).  The doorway of an exit with a cardinal direction is a
    wall doorway and is never followed: whatever its [comingSoon] flag and
    its target, whatever happened to it before, and whatever the player
    position and the cooldown, visiting it makes no [loadScene] call.  In
    a registry whose exits are all cardinal no update ever calls
    [loadScene]; the shipped registry, which holds the [comingSoon] exit,
    is one. *)
Theorem cardinal_exits_never_followed :
  (forall sceneName scene exit ss now deltaTime playerX playerY st,
     isCardinal (exit_direction exit) = true ->
     fst (visit now deltaTime playerX playerY st
            (frames ss (exitDoorway sceneName scene exit))) = st)
  /\ (forall registry fs, cardinalRegistry registry ->
        Forall (fun calls => calls = []) (snd (managerRun fs (newManager registry))))
  /\ (forall fs,
        Forall (fun calls => calls = []) (snd (managerRun fs (newManager scenes)))).
Proof.
  split; [| split].
  - intros sceneName scene exit ss now deltaTime playerX playerY st Hc.
    apply visit_wall. now rewrite frames_isWallDoorway, exitDoorway_wall.
  - intros registry fs Hreg. apply managerRun_walls.
    now apply initDoorways_walls.
  - intros fs. apply managerRun_walls.
    apply initDoorways_walls, shipped_registry_cardinal.
Qed.

(** C4 (as stated) fails: [update] has no guard on the flag or on the
    target.  The exit [inertExit] is flagged [comingSoon] and has no
    target, and with the player standing on it the first update calls
    [loadScene(undefined)]. *)
Lemma flagged_floor_exit_followed :
  exit_comingSoon inertExit = true /\ exit_to inertExit = None /\
  initDoorways annexRegistry !! "annex" = Some [exitDoorway "annex" annex inertExit] /\
  snd (managerUpdate (Some "annex") 0 0.016 4 4 (newManager annexRegistry))
  = [None].
Proof.
  repeat split; vm_compute; reflexivity.
Qed.

(** The override at work: an exit configured at (3, 4) ends at (14, 6.3). *)
Example neonPhylactery_west_moved :
  let d := exitDoorway "neonPhylactery" neonPhylactery movedExit in
  exit_gridX movedExit = Some 3 /\ exit_gridY movedExit = Some 4 /\
  wallSide d = Some west /\ gridX d = 14 /\ gridY d = 6.3.
Proof. repeat split. Qed.

End DoorwayProofs.

(** ** URLSearchParams: parsing what was serialized *)

Module UrlFacts.
Import Url.

Local Open Scope string_scope.

(** One byte through the serializer and back. *)
Lemma decode_encode_byte c rest :
  percentDecode (plusToSpace (encode (String c rest)))
  = String c (percentDecode (plusToSpace (encode rest))).
Proof.
  destruct c as [[] [] [] [] [] [] [] []]; reflexivity.
Qed.

Lemma decode_encode s : percentDecode (plusToSpace (encode s)) = s.
Proof.
  induction s as [|c s IH]; [reflexivity |].
  rewrite decode_encode_byte, IH. reflexivity.
Qed.

(** The serializer writes no delimiter. *)
Lemma encode_byte_absent c sep rest :
  delimiter sep ->
  absent sep (encode rest) -> absent sep (encode (String c rest)).
Proof.
  intros Hsep Hrest.
  destruct c as [[] [] [] [] [] [] [] []];
    destruct Hsep as [-> | [-> | [-> | ->]]]; cbn; repeat split; exact Hrest.
Qed.

Lemma encode_absent sep s : delimiter sep -> absent sep (encode s).
Proof.
  intros Hsep. induction s as [|c s IH]; [exact I |].
  now apply encode_byte_absent.
Qed.

Lemma append_nil (s : string) : "" ++ s = s.
Proof. reflexivity. Qed.

Lemma append_cons (c : ascii) (a b : string) : String c a ++ b = String c (a ++ b).
Proof. reflexivity. Qed.

Lemma append_nil_r (s : string) : s ++ "" = s.
Proof.
  induction s as [|c s IH]; [reflexivity |].
  rewrite append_cons, IH. reflexivity.
Qed.

Lemma splitPair_app name value :
  absent equals name -> splitPair (name ++ String equals value) = (name, value).
Proof.
  induction name as [|c name IH]; cbn [absent].
  - intros _. rewrite append_nil. cbn [splitPair]. now rewrite Ascii.eqb_refl.
  - intros [Hc Hn]. rewrite append_cons. cbn [splitPair].
    rewrite Hc, (IH Hn). reflexivity.
Qed.

Lemma splitOn_absent sep s : absent sep s -> splitOn sep s = [s].
Proof.
  induction s as [|c s IH]; cbn [absent splitOn]; [reflexivity |].
  intros [Hc Hs]. rewrite Hc, (IH Hs). reflexivity.
Qed.

Lemma splitOn_app sep a b :
  absent sep a -> splitOn sep (a ++ String sep b) = a :: splitOn sep b.
Proof.
  induction a as [|c a IH]; cbn [absent].
  - intros _. rewrite append_nil. cbn [splitOn]. now rewrite Ascii.eqb_refl.
  - intros [Hc Ha]. rewrite append_cons. cbn [splitOn].
    rewrite Hc, (IH Ha). reflexivity.
Qed.

Lemma absent_app sep a b : absent sep a -> absent sep b -> absent sep (a ++ b).
Proof.
  induction a as [|c a IH]; cbn [absent].
  - intros _ Hb. exact Hb.
  - intros [Hc Ha] Hb. rewrite append_cons. split; [exact Hc | now apply IH].
Qed.

Lemma encodePair_absent_amp p : absent amp (encodePair p).
Proof.
  unfold encodePair. apply absent_app; [apply encode_absent; now left |].
  cbn. split; [reflexivity | apply encode_absent; now left].
Qed.

Lemma encodePair_nonempty p : isEmpty (encodePair p) = false.
Proof.
  unfold encodePair. now destruct (encode (fst p)).
Qed.

Lemma decodePair_encodePair p : decodePair (encodePair p) = p.
Proof.
  unfold decodePair, encodePair.
  rewrite splitPair_app by (apply encode_absent; right; now left).
  rewrite !decode_encode. now destruct p.
Qed.

(** Parsing a serialized parameter list gives the list back. *)
Lemma parseQuery_toString ps : parseQuery (toString ps) = ps.
Proof.
  unfold parseQuery.
  induction ps as [|p ps IH]; [reflexivity |].
  destruct ps as [|q ps].
  - cbn [toString]. rewrite splitOn_absent by apply encodePair_absent_amp.
    cbn [List.filter]. rewrite encodePair_nonempty. cbn [negb map].
    now rewrite decodePair_encodePair.
  - change (toString (p :: q :: ps))
      with (encodePair p ++ String amp (toString (q :: ps))).
    rewrite splitOn_app by apply encodePair_absent_amp.
    cbn [List.filter]. rewrite encodePair_nonempty. cbn [negb map].
    rewrite decodePair_encodePair. f_equal. exact IH.
Qed.

(** ** The query of a URL *)

Lemma encodePair_absent sep p :
  sep = amp \/ sep = question \/ sep = hash -> absent sep (encodePair p).
Proof.
  intros Hsep. unfold encodePair.
  assert (Hd : delimiter sep) by (unfold delimiter; tauto).
  apply absent_app; [now apply encode_absent |].
  cbn [absent]. split; [| now apply encode_absent].
  destruct Hsep as [-> | [-> | ->]]; reflexivity.
Qed.

Lemma toString_absent sep ps :
  sep = question \/ sep = hash -> absent sep (toString ps).
Proof.
  intros Hsep. induction ps as [|p ps IH]; [exact I |].
  destruct ps as [|q ps].
  - apply encodePair_absent. tauto.
  - change (toString (p :: q :: ps))
      with (encodePair p ++ String amp (toString (q :: ps))).
    apply absent_app; [apply encodePair_absent; tauto |].
    cbn [absent]. split; [| exact IH].
    destruct Hsep as [-> | ->]; reflexivity.
Qed.

Lemma cut_absent c s : absent c s -> cut c s = (s, None).
Proof.
  induction s as [|c' s IH]; cbn [absent cut]; [reflexivity |].
  intros [Hc Hs]. now rewrite Hc, (IH Hs).
Qed.

Lemma cut_app c a b : absent c a -> cut c (a ++ String c b) = (a, Some b).
Proof.
  induction a as [|c' a IH]; cbn [absent].
  - intros _. rewrite append_nil. cbn [cut]. now rewrite Ascii.eqb_refl.
  - intros [Hc Ha]. rewrite append_cons. cbn [cut]. now rewrite Hc, (IH Ha).
Qed.

(** A URL without [?] and [#] of its own, followed by [?] and a
    serialized parameter list, has that list as its query. *)
Lemma urlQuery_app url ps :
  absent question url -> absent hash url ->
  urlQuery (url ++ String question (toString ps)) = toString ps.
Proof.
  intros Hq Hh. unfold urlQuery.
  rewrite (cut_absent hash).
  - cbn [fst]. now rewrite cut_app.
  - apply absent_app; [exact Hh |]. cbn [absent].
    split; [reflexivity | apply toString_absent; now right].
Qed.

End UrlFacts.

(** ** Portal entries *)

Module VibePortalProofs.
Import Js FloatFacts Url UrlFacts VibePortal Scenarios.

Local Open Scope string_scope.

Lemma currentDomain_hostname w :
  isEmpty (hostname w) = false -> currentDomain w = hostname w.
Proof. unfold currentDomain, str_or_default. now intros ->. Qed.

Lemma currentDomain_fallback w :
  hostname w = "" -> currentDomain w = "alchemistslair.local".
Proof. unfold currentDomain, str_or_default. now intros ->. Qed.

Lemma outboundParams_exit w p :
  portalType p = "exit" ->
  exists rest,
    outboundParams w p = ("portal", "true") :: ("ref", currentDomain w) :: rest.
Proof.
  intros Ht. unfold outboundParams, Url.append.
  rewrite Ht. change ("exit" =? "exit") with true. cbv iota. cbn [app].
  destruct (selfUsername w) as [u|]; [destruct (isEmpty u) |]; eauto.
Qed.

Lemma get_filtered name (ps : Params) :
  get name (List.filter (fun kv => negb (String.eqb (fst kv) name)) ps) = None.
Proof.
  induction ps as [|[k v] ps IH]; [reflexivity |].
  cbn [List.filter fst]. destruct (String.eqb k name) eqn:E; cbn [negb]; [exact IH |].
  cbn [get]. now rewrite E.
Qed.

Lemma toString_cons2 p q rest :
  toString (p :: q :: rest) = encodePair p ++ String amp (toString (q :: rest)).
Proof. reflexivity. Qed.

(** The query that a URL parser finds in what an exit portal builds,
    when the target has no query and no fragment of its own. *)
Lemma searchParams_withQuery url ps :
  absent question url -> absent hash url ->
  searchParams (url ++ "?" ++ toString ps) = ps.
Proof.
  intros Hq Hh. unfold searchParams.
  change ("?" ++ toString ps) with (String question (toString ps)).
  rewrite urlQuery_app by assumption. apply parseQuery_toString.
Qed.

(** C7.  A start portal that is entered (the re-entry guard lets the
    entry through) while the page URL carries no [ref] parameter shows the
    message and never assigns the page location. *)
Theorem start_portal_without_ref_reports
    (now : Z) (w w' : Window) (p : VibePortalEntity) :
  tooSoon now p = false ->
  portalType p = "start" ->
  get "ref" (parse (search w')) = None ->
  (exists sent,
     snd (entry now w w' p) =
     [DispatchPortalEntry "start" sent; PortalTransitionEffect;
      ShowPortalMessage "No destination found for this portal"])
  /\ (forall url, ~ In (SetHref url) (snd (entry now w w' p))).
Proof.
  intros Hsoon Htype Href.
  assert (Hentry : exists sent,
     snd (entry now w w' p) =
     [DispatchPortalEntry "start" sent; PortalTransitionEffect;
      ShowPortalMessage "No destination found for this portal"]).
  { unfold entry, enterPortal. rewrite Hsoon. cbn [snd nextPage app].
    unfold navigate. cbn [portalType set_lastEntryTime].
    rewrite Htype, Href. eexists. reflexivity. }
  split; [exact Hentry |].
  destruct Hentry as [sent ->]. intros url [H | [H | [H | []]]]; discriminate H.
Qed.

Lemma start_portal_without_ref_reports_witness :
  (exists sent,
     snd (entry 5000 plainPage plainPage startPortal) =
     [DispatchPortalEntry "start" sent; PortalTransitionEffect;
      ShowPortalMessage "No destination found for this portal"])
  /\ (forall url, ~ In (SetHref url) (snd (entry 5000 plainPage plainPage startPortal))).
Proof.
  apply (start_portal_without_ref_reports 5000 plainPage plainPage startPortal);
    reflexivity.
Defined.

(** C6 (as amended).  An exit portal that is entered dispatches and then
    navigates to its [targetUrl] followed by [?] and a query that starts
    with [portal=true&ref=<domain>], where the domain is the current
    hostname, or [alchemistslair.local] when the hostname is empty.  When
    the [targetUrl] has no [?] and no [#] of its own, that query is the
    query of the URL navigated to, so the URL has the parameters
    [portal = true] and [ref = <domain>].  A start portal entered on a page
    whose query string is [?ref=foo.com&x=1] navigates to
    [https://foo.com?x=1]; in general it navigates to the [ref] value,
    with [https://] in front when it has no scheme, followed by the page's
    other parameters, unchanged and without [ref]. *)
Theorem portal_navigation_urls
    (now : Z) (w w' : Window) (p : VibePortalEntity) :
  tooSoon now p = false ->
  (portalType p = "exit" ->
     exists query,
       snd (entry now w w' p) =
         [DispatchPortalEntry "exit" (targetUrl p ++ "?" ++ query);
          PortalTransitionEffect;
          SetHref (targetUrl p ++ "?" ++ query)]
       /\ (exists rest, query = "portal=true&ref=" ++ encode (currentDomain w) ++ rest)
       /\ get "portal" (parseQuery query) = Some "true"
       /\ get "ref" (parseQuery query) = Some (currentDomain w)
       /\ (isEmpty (hostname w) = false -> currentDomain w = hostname w)
       /\ (hostname w = "" -> currentDomain w = "alchemistslair.local")
       /\ (absent question (targetUrl p) -> absent hash (targetUrl p) ->
           urlQuery (targetUrl p ++ "?" ++ query) = query
           /\ get "portal" (searchParams (targetUrl p ++ "?" ++ query)) = Some "true"
           /\ get "ref" (searchParams (targetUrl p ++ "?" ++ query))
              = Some (currentDomain w)))
  /\ (portalType p = "start" -> search w' = "?ref=foo.com&x=1" ->
      exists sent,
        snd (entry now w w' p) =
          [DispatchPortalEntry "start" sent; PortalTransitionEffect;
           SetHref "https://foo.com?x=1"])
  /\ (forall refUrl,
        portalType p = "start" -> get "ref" (parse (search w')) = Some refUrl ->
        isEmpty refUrl = false ->
        exists sent query,
          snd (entry now w w' p) =
            [DispatchPortalEntry "start" sent; PortalTransitionEffect;
             SetHref (withQuery
                        (if negb (String.prefix "http://" refUrl)
                            && negb (String.prefix "https://" refUrl)
                         then "https://" ++ refUrl else refUrl)
                        query)]
          /\ parseQuery query
             = List.filter (fun kv => negb (String.eqb (fst kv) "ref"))
                 (parse (search w'))
          /\ get "ref" (parseQuery query) = None).
Proof.
  intros Hsoon. split; [| split]; cycle 2.
  { intros refUrl Htype Href Hne.
    unfold entry, enterPortal. rewrite Hsoon. cbn [snd nextPage app].
    unfold navigate. cbn [portalType set_lastEntryTime].
    rewrite Htype, Href, Hne.
    change ("start" =? "exit") with false. change ("start" =? "start") with true.
    cbv iota zeta. eexists. eexists. split; [reflexivity |].
    rewrite parseQuery_toString. split; [reflexivity | apply get_filtered]. }
  - intros Htype.
    destruct (outboundParams_exit w (set_lastEntryTime (Some now) p) Htype)
      as [rest Hparams].
    exists (toString (outboundParams w (set_lastEntryTime (Some now) p))).
    split; [| split; [| split; [| split; [| split; [| split]]]]].
    + unfold entry, enterPortal. rewrite Hsoon. cbn [snd nextPage app].
      unfold navigate. cbn [portalType targetUrl set_lastEntryTime].
      rewrite Htype. change ("exit" =? "exit") with true. cbv iota.
      rewrite Hparams, toString_cons2.
      change (encodePair ("portal", "true")) with "portal=true".
      reflexivity.
    + rewrite Hparams, toString_cons2.
      change (encodePair ("portal", "true")) with "portal=true".
      destruct rest as [|q rest].
      * exists "". rewrite append_nil_r. reflexivity.
      * exists (String amp (toString (q :: rest))). reflexivity.
    + rewrite parseQuery_toString, Hparams. reflexivity.
    + rewrite parseQuery_toString, Hparams. reflexivity.
    + apply currentDomain_hostname.
    + apply currentDomain_fallback.
    + intros Hq Hh. rewrite searchParams_withQuery by assumption.
      split; [| rewrite Hparams; split; reflexivity].
      change ("?" ++ toString (outboundParams w (set_lastEntryTime (Some now) p)))
        with (String question
                (toString (outboundParams w (set_lastEntryTime (Some now) p)))).
      now apply urlQuery_app.
  - intros Htype Hsearch.
    unfold entry, enterPortal. rewrite Hsoon. cbn [snd nextPage app].
    unfold navigate. cbn [portalType set_lastEntryTime].
    rewrite Htype, Hsearch. eexists. reflexivity.
Qed.

Lemma portal_navigation_urls_witness :
  (exists query,
     snd (entry 5000 hostedPage hostedPage exitPortal) =
       [DispatchPortalEntry "exit" (targetUrl exitPortal ++ "?" ++ query);
        PortalTransitionEffect;
        SetHref (targetUrl exitPortal ++ "?" ++ query)]
     /\ get "portal" (searchParams (targetUrl exitPortal ++ "?" ++ query)) = Some "true"
     /\ get "ref" (searchParams (targetUrl exitPortal ++ "?" ++ query))
        = Some "mygame.io")
  /\ (exists sent,
        snd (entry 5000 arrivingPage arrivingPage startPortal) =
          [DispatchPortalEntry "start" sent; PortalTransitionEffect;
           SetHref "https://foo.com?x=1"]).
Proof.
  split.
  - destruct (portal_navigation_urls 5000 hostedPage hostedPage exitPortal eq_refl)
      as [Hexit _].
    destruct (Hexit eq_refl) as (query & Hrun & _ & _ & _ & _ & _ & Hurl).
    destruct (Hurl ltac:(vm_compute; tauto) ltac:(vm_compute; tauto))
      as (_ & Hportal & Href).
    exists query. repeat split; assumption.
  - apply (portal_navigation_urls 5000 arrivingPage arrivingPage startPortal);
      reflexivity.
Defined.

(** C6 (as stated) fails twice.  On a page with an empty hostname the
    exit portal sends [ref=alchemistslair.local], not the hostname.  And
    a [targetUrl] that already has a query or a fragment swallows what is
    appended: after [?room=1] the URL navigated to has no [portal]
    parameter, and after [#lobby] it has no query at all. *)
Lemma exit_ref_not_always_hostname :
  (portalType exitPortal = "exit" /\ hostname localPage = "" /\
   snd (entry 5000 localPage localPage exitPortal) =
     [DispatchPortalEntry "exit"
        "https://portal.pieter.com?portal=true&ref=alchemistslair.local";
      PortalTransitionEffect;
      SetHref "https://portal.pieter.com?portal=true&ref=alchemistslair.local"] /\
   get "ref" (outboundParams localPage exitPortal) <> Some (hostname localPage))
  /\ (portalType roomPortal = "exit" /\
      snd (entry 5000 hostedPage hostedPage roomPortal) =
        [DispatchPortalEntry "exit"
           "https://example.com/?room=1?portal=true&ref=mygame.io";
         PortalTransitionEffect;
         SetHref "https://example.com/?room=1?portal=true&ref=mygame.io"] /\
      searchParams "https://example.com/?room=1?portal=true&ref=mygame.io"
        = [("room", "1?portal=true"); ("ref", "mygame.io")] /\
      get "portal"
        (searchParams "https://example.com/?room=1?portal=true&ref=mygame.io") = None)
  /\ (portalType lobbyPortal = "exit" /\
      snd (entry 5000 hostedPage hostedPage lobbyPortal) =
        [DispatchPortalEntry "exit"
           "https://example.com/#lobby?portal=true&ref=mygame.io";
         PortalTransitionEffect;
         SetHref "https://example.com/#lobby?portal=true&ref=mygame.io"] /\
      searchParams "https://example.com/#lobby?portal=true&ref=mygame.io" = [] /\
      get "portal"
        (searchParams "https://example.com/#lobby?portal=true&ref=mygame.io") = None /\
      get "ref"
        (searchParams "https://example.com/#lobby?portal=true&ref=mygame.io") = None).
Proof.
  repeat split; try reflexivity. discriminate.
Qed.

(** ** The two ranges of a portal *)

Local Open Scope float_scope.

Lemma or_default_cases (v : option float) (d : float) :
  or_default v d
  = match v with
    | Some n => if (n =? 0) || is_nan n then d else n
    | None => d
    end.
Proof.
  unfold or_default, truthy. destruct v as [n|]; [| reflexivity].
  now destruct ((n =? 0) || is_nan n).
Qed.

Lemma enterPortal_ranges now w p :
  let p' := fst (fst (enterPortal now w p)) in
  entryDetectionRange p' = entryDetectionRange p /\
  interactionDistance p' = interactionDistance p.
Proof. cbv zeta. unfold enterPortal. now destruct (tooSoon now p). Qed.

Lemma update_ranges now w player p :
  let p' := fst (fst (update now w player p)) in
  entryDetectionRange p' = entryDetectionRange p /\
  interactionDistance p' = interactionDistance p.
Proof.
  cbv zeta. unfold update. destruct player as [[px py]|]; [| now split].
  cbv zeta.
  match goal with |- context [if ?b then _ else _] => destruct b end;
    [| now split].
  apply (enterPortal_ranges now w (set_isPlayerNearby _ p)).
Qed.

(** C9 (as amended).  The constructor takes each range from the options,
    or its default when the option is missing, zero or [NaN]: 3 for
    [interactionDistance] and 1.5 for [entryDetectionRange]; it does not
    compare the two.  [entryDetectionRange <= interactionDistance] holds
    after construction when neither range is given, when only an
    interaction distance of at least 1.5 is given, when only an entry range
    of at most 3 is given, and when both are given, truthy and in that
    order; [update] changes neither field of any portal. *)
Theorem entry_range_within_interaction_distance
    (x y z : float) (type url : option string) :
  let built i e := construct x y z (mkOptions type url i e) in
  let holds p := (entryDetectionRange p <=? interactionDistance p) = true in
  (forall i e,
     interactionDistance (built i e)
     = match i with
       | Some n => if (n =? 0) || is_nan n then 3 else n
       | None => 3
       end
     /\ entryDetectionRange (built i e)
        = match e with
          | Some n => if (n =? 0) || is_nan n then 1.5 else n
          | None => 1.5
          end)
  /\ holds (built None None)
  /\ (forall i, (1.5 <=? i) = true -> holds (built (Some i) None))
  /\ (forall e, (e <=? 3) = true -> holds (built None (Some e)))
  /\ (forall i e, truthy i = true -> truthy e = true -> (e <=? i) = true ->
        holds (built (Some i) (Some e)))
  /\ (forall p now w player,
        entryDetectionRange (fst (fst (update now w player p)))
          = entryDetectionRange p
        /\ interactionDistance (fst (fst (update now w player p)))
           = interactionDistance p).
Proof.
  cbv zeta.
  split; [| split; [| split; [| split; [| split]]]];
    [unfold construct;
     cbn [entryDetectionRange interactionDistance opt_interactionDistance
          opt_entryDetectionRange] .. | ].
  - intros i e. now rewrite !or_default_cases.
  - reflexivity.
  - intros i Hi. cbn [or_default].
    now rewrite (truthy_above 1.5 i eq_refl Hi).
  - intros e He. cbn [or_default].
    destruct (truthy e); [exact He | reflexivity].
  - intros i e Hi He Hle. cbn [or_default]. now rewrite Hi, He.
  - intros p now w player. apply update_ranges.
Qed.

(** C9 (as stated) fails: asking for an entry range of 5 and no
    interaction distance gives a portal whose entry range exceeds its
    interaction distance. *)
Lemma entry_range_can_exceed :
  let p := construct 14 10 0 wideEntry in
  entryDetectionRange p = 5 /\ interactionDistance p = 3 /\
  (entryDetectionRange p <=? interactionDistance p) = false /\
  (interactionDistance p <? entryDetectionRange p) = true.
Proof.
  cbv zeta. repeat split.
Qed.

End VibePortalProofs.

(** ** Portal detection in [updateScene] *)

Module SceneIntegrationProofs.
Import Js FloatFacts SceneIntegration Scenarios.

(** The test is passed exactly when both coordinate differences are
    within the threshold. *)
Lemma withinThreshold_spec portal px py threshold :
  withinThreshold portal px py threshold
  = (abs (portal_gridX portal - px) <=? threshold)
    && (abs (portal_gridY portal - py) <=? threshold).
Proof. unfold withinThreshold. cbv zeta. apply leb_max. Qed.

Lemma assign_lookup key value (object : gmap string float) id :
  assign key value object !! id
  = if String.eqb key id && negb (String.eqb key "__proto__")
    then Some value else object !! id.
Proof.
  unfold assign. destruct (String.eqb key "__proto__") eqn:Hp.
  - now rewrite andb_false_r.
  - rewrite andb_true_r. destruct (String.eqb key id) eqn:Hk.
    + apply String.eqb_eq in Hk. subst id. apply lookup_insert_eq.
    + apply String.eqb_neq in Hk. now apply lookup_insert_ne.
Qed.

(** The thresholds collected from a list of portals, on top of those
    already there. *)
Lemma collected_lookup portals (values : gmap string float) id :
  fold_left
    (fun values portal =>
       if String.eqb (portal_direction portal) "north"
          && String.prefix "http" (portal_targetScene portal)
       then assign (portal_id portal) 0.25 values
       else values)
    portals values !! id
  = if negb (String.eqb id "__proto__")
       && existsb (fun other => String.eqb (portal_id other) id
                                && leadsNorthToUrl other) portals
    then Some 0.25 else values !! id.
Proof.
  revert values. induction portals as [|portal portals IH]; intros values;
    cbn [fold_left existsb].
  - now rewrite andb_false_r.
  - rewrite IH. fold (leadsNorthToUrl portal).
    destruct (String.eqb id "__proto__") eqn:Hp; cbn [negb andb].
    + destruct (leadsNorthToUrl portal); [| reflexivity].
      rewrite assign_lookup. destruct (String.eqb (portal_id portal) id) eqn:Hk;
        [| reflexivity].
      apply String.eqb_eq in Hk. rewrite Hk, Hp. reflexivity.
    + destruct (existsb _ portals); [now rewrite orb_true_r |].
      rewrite orb_false_r.
      destruct (leadsNorthToUrl portal); [| now rewrite andb_false_r].
      rewrite andb_true_r, assign_lookup.
      destruct (String.eqb (portal_id portal) id) eqn:Hk; [| reflexivity].
      apply String.eqb_eq in Hk. rewrite Hk, Hp. reflexivity.
Qed.

(** A portal has a custom threshold, 0.25, exactly when it shares its
    identifier, other than [__proto__], with a north portal that leads to
    a URL. *)
Lemma customProximityValues_lookup scenePortals portal :
  customProximityValues scenePortals !! portal_id portal
  = if hasCustomThreshold scenePortals portal then Some 0.25 else None.
Proof.
  unfold customProximityValues, hasCustomThreshold.
  rewrite collected_lookup. now rewrite lookup_empty.
Qed.

Lemma customLoop_find scenePortals rest px py :
  customLoop (customProximityValues scenePortals) rest px py
  = option_map portal_id
      (find (fun portal => hasCustomThreshold scenePortals portal
                           && withinThreshold portal px py 0.25) rest).
Proof.
  induction rest as [|portal rest IH]; [reflexivity |].
  cbn [customLoop find]. rewrite customProximityValues_lookup.
  destruct (hasCustomThreshold scenePortals portal); cbn [andb]; [| exact IH].
  change (truthy 0.25) with true. cbn [andb].
  destruct (withinThreshold portal px py 0.25); [reflexivity | exact IH].
Qed.

(** C5 (as amended).  The test that [updateScene] applies to a portal is
    [Math.max(|dx|, |dy|) <= threshold] on the doubles the code computes:
    Chebyshev and non-strict, passed exactly when both [|dx|] and [|dy|]
    are at most the threshold; a portal at (0, 0) with threshold 0.5
    passes for a player at (0.5, 0.5) and fails at (0.6, 0).  In the start
    room the portals with a custom threshold (those that share their
    identifier, other than [__proto__], with a north portal leading to a
    URL) are tested first, with the threshold 0.25, and the first of them
    that passes is the only portal detected.  Otherwise, and in every other scene, the portals
    detected are those that [getNearbyPortals] returns for the threshold
    0.5: the portals of the scene that pass the test. *)
Theorem portal_proximity_is_chebyshev
    (getPortalsForScene : string -> list Portal) (sceneId : string)
    (px py : float) :
  (forall portal threshold,
     withinThreshold portal px py threshold
     = (Js.max (abs (portal_gridX portal - px)) (abs (portal_gridY portal - py))
        <=? threshold))
  /\ (forall portal threshold,
        withinThreshold portal px py threshold = true
        <-> (abs (portal_gridX portal - px) <=? threshold) = true
            /\ (abs (portal_gridY portal - py) <=? threshold) = true)
  /\ withinThreshold originPortal 0.5 0.5 0.5 = true
  /\ withinThreshold originPortal 0.6 0 0.5 = false
  /\ (forall scenePortals,
        customLoop (customProximityValues scenePortals) scenePortals px py
        = option_map portal_id (firstCustomPortal scenePortals px py))
  /\ (forall scenePortals portal,
        firstCustomPortal scenePortals px py = Some portal ->
        In portal scenePortals
        /\ hasCustomThreshold scenePortals portal = true
        /\ withinThreshold portal px py 0.25 = true)
  /\ (forall scenePortals,
        firstCustomPortal scenePortals px py = None ->
        forall portal, In portal scenePortals ->
          hasCustomThreshold scenePortals portal = true ->
          withinThreshold portal px py 0.25 = false)
  /\ nearbyPortals getPortalsForScene sceneId px py
     = match
         (if String.eqb sceneId "startRoom"
          then firstCustomPortal (getPortalsForScene sceneId) px py
          else None)
       with
       | Some portal => [portal_id portal]
       | None =>
           map portal_id
             (List.filter (fun portal => withinThreshold portal px py 0.5)
                (getPortalsForScene sceneId))
       end
  /\ (forall id,
        In id (getNearbyPortals getPortalsForScene px py sceneId 0.5)
        <-> exists portal, In portal (getPortalsForScene sceneId)
              /\ portal_id portal = id
              /\ withinThreshold portal px py 0.5 = true).
Proof.
  split; [reflexivity |].
  split.
  { intros portal threshold. rewrite withinThreshold_spec. apply andb_true_iff. }
  split; [reflexivity |]. split; [reflexivity |].
  split.
  { intros scenePortals. apply customLoop_find. }
  split.
  { intros scenePortals portal Hfind. unfold firstCustomPortal in Hfind.
    apply find_some in Hfind as [Hin Htest].
    apply andb_true_iff in Htest as [Hc Hw]. now repeat split. }
  split.
  { intros scenePortals Hfind portal Hin Hc. unfold firstCustomPortal in Hfind.
    pose proof (find_none _ _ Hfind portal Hin) as Htest. cbv beta in Htest.
    now rewrite Hc in Htest. }
  split.
  { unfold nearbyPortals. cbv zeta.
    destruct (String.eqb sceneId "startRoom"); [| reflexivity].
    rewrite customLoop_find. fold (firstCustomPortal (getPortalsForScene sceneId) px py).
    now destruct (firstCustomPortal _ px py). }
  intros id. unfold getNearbyPortals. rewrite in_map_iff. split.
  - intros (portal & Hid & Hin). apply filter_In in Hin as [Hin Hw]. now exists portal.
  - intros (portal & Hin & Hid & Hw). exists portal. split; [exact Hid |].
    now apply filter_In.
Qed.

(** C5 (as stated) fails for the set of portals detected.  A player who
    stands on the start room's arcade portal is within 0.5 of the portal
    beside it as well, but the custom-threshold loop stops at the arcade
    portal and the other one is not detected. *)
Lemma first_custom_portal_hides_others :
  withinThreshold arcadePortal 8 0 0.5 = true
  /\ withinThreshold otherPortal 8 0 0.5 = true
  /\ Js.max (abs (portal_gridX otherPortal - 8)) (abs (portal_gridY otherPortal - 0))
     = 0.25
  /\ nearbyPortals startRoomPortals "startRoom" 8 0 = ["arcade"]
  /\ ~ In "other" (nearbyPortals startRoomPortals "startRoom" 8 0)
  /\ getNearbyPortals startRoomPortals 8 0 "startRoom" 0.5 = ["arcade"; "other"].
Proof.
  assert (Hnear : nearbyPortals startRoomPortals "startRoom" 8 0 = ["arcade"])
    by reflexivity.
  repeat split; try reflexivity.
  rewrite Hnear. intros [H | []]. discriminate H.
Qed.

(** The differences are doubles: a player at [-2^-60] is at the
    distance 0.5, after rounding, from a portal at 0.5. *)
Example threshold_test_rounds :
  let portal := mkPortal "edge" "south" "circuitSanctum" 0.5 0 in
  let px := (- 0x1p-60)%float in
  abs (portal_gridX portal - px) = 0.5
  /\ withinThreshold portal px 0 0.5 = true.
Proof. cbv zeta. split; reflexivity. Qed.

(** ** Shift + direction chords *)

Section Chords.

Variable SceneManager : Type.
Variable getCurrentScene : SceneManager -> option string.
Variable transitionTo : string -> SceneManager -> SceneManager.
Variable getPortalsForScene : string -> list Portal.

Local Abbreviation handle := (handleSceneTransitions SceneManager getCurrentScene transitionTo).
Local Abbreviation step :=
  (updateScene SceneManager getCurrentScene transitionTo getPortalsForScene).
Local Abbreviation runFrames :=
  (run SceneManager getCurrentScene transitionTo getPortalsForScene).

(** The flags are all clear after every [updateScene]. *)
Lemma updateScene_clears isKeyPressed player st :
  consumedKeys _ (fst (step isKeyPressed player st)) = noneConsumed.
Proof.
  unfold updateScene. cbv zeta.
  now destruct (getCurrentScene _).
Qed.

Lemma updateScene_transitions isKeyPressed player st :
  transitions _ (fst (step isKeyPressed player st))
  = transitions _ (handle isKeyPressed st).
Proof.
  unfold updateScene. cbv zeta.
  now destruct (getCurrentScene _).
Qed.

(** With the flags clear and a scene loaded, every chord that is down
    fires. *)
Lemma handle_fires_held isKeyPressed st :
  getCurrentScene (sceneManager _ st) <> None ->
  consumedKeys _ st = noneConsumed ->
  transitions _ (handle isKeyPressed st)
  = (transitions _ st ++ heldChords isKeyPressed)%list.
Proof.
  intros Hscene Hclear. unfold handleSceneTransitions, heldChords.
  destruct (getCurrentScene (sceneManager _ st)); [| contradiction].
  destruct st as [sm consumed log]. cbn [consumedKeys] in Hclear. subst consumed.
  cbv zeta.
  destruct (isKeyPressed "Shift"), (isKeyPressed "e"), (isKeyPressed "d"),
    (isKeyPressed "s"), (isKeyPressed "f");
    cbn -[String.eqb]; rewrite <- ?app_assoc, ?app_nil_r; reflexivity.
Qed.

(** C8 (the code departs from the claim).  While a scene is loaded,
    every frame fires every chord that is down in that frame: the flags
    set by [handleSceneTransitions] are cleared by [updateScene] before
    the next frame reads them, so a chord held for several frames calls
    [transitionTo] once per frame. *)
Theorem held_chord_fires_every_frame
    (keys : list (string -> bool)) (player : option Player)
    (st : State SceneManager) :
  (forall sm, getCurrentScene sm <> None) ->
  consumedKeys _ st = noneConsumed ->
  transitions _ (runFrames keys player st)
  = (transitions _ st ++ concat (map heldChords keys))%list
  /\ consumedKeys _ (runFrames keys player st) = noneConsumed.
Proof.
  intros Hscene. revert st. unfold run.
  induction keys as [|k keys IH]; intros st Hclear; cbn [fold_left map concat].
  - now rewrite app_nil_r.
  - destruct (IH (fst (step k player st)) (updateScene_clears k player st))
      as [-> ->].
    split; [| reflexivity].
    rewrite updateScene_transitions, handle_fires_held by auto.
    now rewrite app_assoc.
Qed.

End Chords.

Lemma held_chord_fires_every_frame_witness :
  transitions _
    (run unit startRoomLoaded stay (fun _ => []) [shiftE; shiftE; shiftE] None
       (mkState unit tt noneConsumed []))
  = ["north"; "north"; "north"]
  /\ consumedKeys _
       (run unit startRoomLoaded stay (fun _ => []) [shiftE; shiftE; shiftE] None
          (mkState unit tt noneConsumed []))
     = noneConsumed.
Proof.
  apply (held_chord_fires_every_frame unit startRoomLoaded stay (fun _ => [])
           [shiftE; shiftE; shiftE] None (mkState unit tt noneConsumed [])).
  - intros sm. discriminate.
  - reflexivity.
Defined.

End SceneIntegrationProofs.
